(** * The temporal operator: namespace reconciler, cluster defaults,
      frontend service builder

    A shallow embedding of

    - [controllers/temporalnamespace_controller.go]: [Reconcile],
      [reconcileCustomSearchAttributes], [searchAttributeTypeStringToEnum],
      [ensureFinalizer], [ensureNamespaceDeleted], [handleError] and friends;
    - the cluster controller's [reconcileDefaults];
    - [FrontendServiceBuilder] ([Build], [Enabled], [Update]).

    Go maps are [gmap]s, Go pointers to optional values are [option]s, the
    pair [(value, err)] a Go function returns is a pair or a sum, and the
    remote Temporal server together with the connections opened to it is an
    explicit [World] threaded through the calls. *)

From Stdlib Require Import ZArith Ascii String List Lia.
From stdpp Require Import base option list gmap strings fin_maps.

Local Open Scope string_scope.
Local Open Scope Z_scope.

(** ** Go strings *)

Module GoStrings.

(** The double quote, for the format strings that embed one. *)
Definition dquote : string := String (ascii_of_nat 34) EmptyString.

Definition is_ascii (c : ascii) : bool := (nat_of_ascii c <? 128)%nat.

Definition is_upper (c : ascii) : bool :=
  ((65 <=? nat_of_ascii c) && (nat_of_ascii c <=? 90))%nat.

(** ['A'..'Z'] moved to ['a'..'z'], every other byte left alone. *)
Definition to_lower (c : ascii) : ascii :=
  if is_upper c then ascii_of_nat (nat_of_ascii c + 32) else c.

(** The first rune of a UTF-8 string, as far as folding against an ASCII
    letter can tell runes apart: an ASCII byte, the Kelvin sign U+212A
    (bytes E2 84 AA, which folds to [k]), the long s U+017F (bytes C5 BF,
    which folds to [s]), or anything else. *)
Inductive rune_class :=
| RAscii (c : ascii)
| RKelvin
| RLongS
| ROther.

Definition decode_rune (s : string) : option (rune_class * string) :=
  match s with
  | EmptyString => None
  | String c s' =>
    if is_ascii c then Some (RAscii c, s')
    else
      match nat_of_ascii c, s' with
      | 226%nat, String c2 (String c3 s'') =>
        if ((nat_of_ascii c2 =? 132) && (nat_of_ascii c3 =? 170))%nat
        then Some (RKelvin, s'') else Some (ROther, s')
      | 197%nat, String c2 s'' =>
        if (nat_of_ascii c2 =? 191)%nat
        then Some (RLongS, s'') else Some (ROther, s')
      | _, _ => Some (ROther, s')
      end
  end.

(** One step of [strings.EqualFold]: does rune [r] equal the ASCII byte
    [k] under Unicode simple case folding? *)
Definition rune_fold_eq (r : rune_class) (k : ascii) : bool :=
  match r with
  | RAscii c => Ascii.eqb (to_lower c) (to_lower k)
  | RKelvin => Ascii.eqb (to_lower k) "k"%char
  | RLongS => Ascii.eqb (to_lower k) "s"%char
  | ROther => false
  end.

(** [strings.EqualFold s t] for an ASCII [t], which is how the reconciler
    calls it (the keys of the shorthand table). *)
Fixpoint EqualFold (s t : string) : bool :=
  match t with
  | EmptyString => match s with EmptyString => true | _ => false end
  | String k t' =>
    match decode_rune s with
    | Some (r, s') => rune_fold_eq r k && EqualFold s' t'
    | None => false
    end
  end.

(** A string with its ASCII letters in lower case. *)
Fixpoint lower (s : string) : string :=
  match s with
  | EmptyString => EmptyString
  | String c s' => String (to_lower c) (lower s')
  end.

(** [strings.Join]. *)
Fixpoint Join (elems : list string) (sep : string) : string :=
  match elems with
  | [] => EmptyString
  | [e] => e
  | e :: rest => e +:+ sep +:+ Join rest sep
  end.

End GoStrings.

(** ** Go errors *)

Module GoErrors.

(** The concrete error types the reconciler tells apart with [errors.As]
    and [apierrors.IsNotFound]; every other error is [Generic]. *)
Inductive Kind :=
| NamespaceAlreadyExists   (* serviceerror.NamespaceAlreadyExists *)
| NamespaceNotFound        (* serviceerror.NamespaceNotFound *)
| StatusNotFound           (* a Kubernetes API status error, reason NotFound *)
| Generic.

#[warnings="-register-all"]
Inductive error :=
| New (k : Kind) (msg : string)
| Wrapf (prefix : string) (cause : error)  (* fmt.Errorf(prefix + "%w", cause) *)
| Aggregate (errs : list error).           (* kerrors.NewAggregate *)

#[global] Instance Kind_eq_dec : EqDecision Kind.
Proof. solve_decision. Defined.

(** The message kerrors gives an aggregate: the only message when there is
    one, otherwise the distinct messages in brackets. *)
Definition aggregate_message (msgs : list string) : string :=
  match remove_dups msgs with
  | [] => EmptyString
  | [m] => m
  | ms => "[" +:+ GoStrings.Join ms ", " +:+ "]"
  end.

(** [err.Error()]. *)
Fixpoint Error (e : error) : string :=
  match e with
  | New _ msg => msg
  | Wrapf prefix cause => prefix +:+ Error cause
  | Aggregate errs => aggregate_message (map Error errs)
  end.

(** [errors.As(err, &target)] for a target of kind [k]: walks the chain of
    wrapped errors, and the members of an aggregate in order. *)
Fixpoint As (k : Kind) (e : error) : bool :=
  match e with
  | New k' _ => bool_decide (k' = k)
  | Wrapf _ cause => As k cause
  | Aggregate errs => existsb (As k) errs
  end.

(** [apierrors.IsNotFound]. *)
Definition IsNotFound (e : error) : bool := As StatusNotFound e.

(** [kerrors.NewAggregate]: nil entries are dropped, and no error at all
    is nil. *)
Definition NewAggregate (errs : list (option error)) : option error :=
  match omap id errs with
  | [] => None
  | es => Some (Aggregate es)
  end.

(** [fmt.Errorf(msg)] without a wrapped cause. *)
Definition Errorf (msg : string) : error := New Generic msg.

End GoErrors.

Import GoErrors.

(** ** Search attribute types *)

(** [enums.IndexedValueType] of the Temporal API. *)
Inductive IndexedValueType :=
| INDEXED_VALUE_TYPE_UNSPECIFIED
| INDEXED_VALUE_TYPE_TEXT
| INDEXED_VALUE_TYPE_KEYWORD
| INDEXED_VALUE_TYPE_INT
| INDEXED_VALUE_TYPE_DOUBLE
| INDEXED_VALUE_TYPE_BOOL
| INDEXED_VALUE_TYPE_DATETIME
| INDEXED_VALUE_TYPE_KEYWORD_LIST.

#[global] Instance IndexedValueType_eq_dec : EqDecision IndexedValueType.
Proof. solve_decision. Defined.

(** Modelled from the spec: [enums.IndexedValueType_shorthandValue], the
    fixed enumeration table of the Temporal API (text, keyword, integer,
    double, boolean, timestamp-like, list-of-keyword, and the unspecified
    type), which is declared outside the operator's sources.  The table is a
    Go map; the list fixes one order of iteration over it. *)
Definition IndexedValueType_shorthandValue : list (string * IndexedValueType) :=
  [ ("Unspecified", INDEXED_VALUE_TYPE_UNSPECIFIED);
    ("Text", INDEXED_VALUE_TYPE_TEXT);
    ("Keyword", INDEXED_VALUE_TYPE_KEYWORD);
    ("Int", INDEXED_VALUE_TYPE_INT);
    ("Double", INDEXED_VALUE_TYPE_DOUBLE);
    ("Bool", INDEXED_VALUE_TYPE_BOOL);
    ("Datetime", INDEXED_VALUE_TYPE_DATETIME);
    ("KeywordList", INDEXED_VALUE_TYPE_KEYWORD_LIST) ].

(** [IndexedValueType.String()]: the shorthand name of the type. *)
Definition IndexedValueType_String (t : IndexedValueType) : string :=
  match t with
  | INDEXED_VALUE_TYPE_UNSPECIFIED => "Unspecified"
  | INDEXED_VALUE_TYPE_TEXT => "Text"
  | INDEXED_VALUE_TYPE_KEYWORD => "Keyword"
  | INDEXED_VALUE_TYPE_INT => "Int"
  | INDEXED_VALUE_TYPE_DOUBLE => "Double"
  | INDEXED_VALUE_TYPE_BOOL => "Bool"
  | INDEXED_VALUE_TYPE_DATETIME => "Datetime"
  | INDEXED_VALUE_TYPE_KEYWORD_LIST => "KeywordList"
  end.

(** The loop of [searchAttributeTypeStringToEnum] over the table: the first
    key that equals the string up to case decides. *)
Fixpoint shorthand_lookup (table : list (string * IndexedValueType))
    (searchAttributeTypeString : string) : option IndexedValueType :=
  match table with
  | [] => None
  | (k, v) :: rest =>
    if GoStrings.EqualFold searchAttributeTypeString k then Some v
    else shorthand_lookup rest searchAttributeTypeString
  end.

(** [searchAttributeTypeStringToEnum]: the type and a nil error, or the
    unspecified type and an error. *)
Definition searchAttributeTypeStringToEnum (searchAttributeTypeString : string)
    : IndexedValueType * option error :=
  match shorthand_lookup IndexedValueType_shorthandValue searchAttributeTypeString with
  | Some v => (v, None)
  | None =>
    (INDEXED_VALUE_TYPE_UNSPECIFIED,
     Some (Errorf ("unsupported search attribute type: " +:+ searchAttributeTypeString)))
  end.

(** ** Conditions *)

Inductive ConditionStatus := ConditionTrue | ConditionFalse | ConditionUnknown.

#[global] Instance ConditionStatus_eq_dec : EqDecision ConditionStatus.
Proof. solve_decision. Defined.

(** A condition without its type, which is the key it is stored under, and
    without its transition time. *)
Record Condition := {
  cond_Status : ConditionStatus;
  cond_Reason : string;
  cond_Message : string;
}.

#[global] Instance Condition_eq_dec : EqDecision Condition.
Proof. solve_decision. Defined.

Definition ReadyCondition : string := "Ready".
Definition ReconcileSuccessCondition : string := "ReconcileSuccess".
Definition ReconcileErrorCondition : string := "ReconcileError".

Definition ReconcileErrorReason : string := "ReconcileError".
Definition ReconcileSuccessReason : string := "ReconcileSuccess".
Definition TemporalNamespaceCreatedReason : string := "TemporalNamespaceCreated".

(** Modelled from the spec: the condition ledger of [api/v1beta1], which is
    not among the sources.  Conditions are keyed by type within an object,
    and setting one replaces the entry of that type. *)
Definition setCondition (conditions : gmap string Condition)
    (type : string) (status : ConditionStatus) (reason message : string)
    : gmap string Condition :=
  <[type := {| cond_Status := status; cond_Reason := reason; cond_Message := message |}]>
    conditions.

(** ** The managed objects *)

(** Durations and instants are Go's: a count of nanoseconds. *)
Definition Second : Z := 1000000000.
Definition Hour : Z := 3600 * Second.

(** [*metav1.Time]; [IsZero] holds of the nil pointer and of the zero
    instant. *)
Definition Time_IsZero (t : option Z) : bool :=
  match t with
  | None => true
  | Some instant => instant =? 0
  end.

(** *** The cluster *)

(** [v1beta1.ServiceSpec]: the fields the code below reads or writes. *)
Record ServiceSpec := {
  Replicas : option Z;
  Port : option Z;
  MembershipPort : option Z;
  HTTPPort : option Z;
}.

Record TemporalServicesSpec := {
  Frontend : option ServiceSpec;
  History : option ServiceSpec;
  Matching : option ServiceSpec;
  Worker : option ServiceSpec;
}.

Record SQLSpec := {
  ConnectProtocol : string;
}.

Record DatastoreSpec := {
  ds_Name : string;
  SQL : option SQLSpec;
}.

Record PersistenceSpec := {
  DefaultStore : string;
  VisibilityStore : string;
}.

Record TemporalUISpec := {
  ui_Version : string;
  ui_Image : string;
}.

Record TemporalAdminToolsSpec := {
  admintools_Image : string;
}.

Record CertificatesDurationSpec := {
  RootCACertificate : option Z;
  IntermediateCAsCertificates : option Z;
  ClientCertificates : option Z;
  FrontendCertificate : option Z;
  InternodeCertificate : option Z;
}.

Record MTLSSpec := {
  Provider : string;
  RefreshInterval : option Z;
  CertificatesDuration : option CertificatesDurationSpec;
}.

Record ClusterSpec := {
  Version : string;
  Image : string;
  Services : option TemporalServicesSpec;
  Datastores : list DatastoreSpec;
  Persistence : PersistenceSpec;
  UI : option TemporalUISpec;
  AdminTools : option TemporalAdminToolsSpec;
  MTLS : option MTLSSpec;
}.

(** [v1beta1.TemporalCluster] (the defaults normalizer calls the type
    [v1beta1.Cluster]). *)
Record TemporalCluster := {
  cluster_Name : string;
  cluster_Namespace : string;
  cluster_Labels : gmap string string;
  cluster_Annotations : gmap string string;
  Spec : ClusterSpec;
  cluster_Conditions : gmap string Condition;
}.

#[global] Instance ServiceSpec_eq_dec : EqDecision ServiceSpec.
Proof. solve_decision. Defined.
#[global] Instance TemporalServicesSpec_eq_dec : EqDecision TemporalServicesSpec.
Proof. solve_decision. Defined.
#[global] Instance SQLSpec_eq_dec : EqDecision SQLSpec.
Proof. solve_decision. Defined.
#[global] Instance DatastoreSpec_eq_dec : EqDecision DatastoreSpec.
Proof. solve_decision. Defined.
#[global] Instance PersistenceSpec_eq_dec : EqDecision PersistenceSpec.
Proof. solve_decision. Defined.
#[global] Instance TemporalUISpec_eq_dec : EqDecision TemporalUISpec.
Proof. solve_decision. Defined.
#[global] Instance TemporalAdminToolsSpec_eq_dec : EqDecision TemporalAdminToolsSpec.
Proof. solve_decision. Defined.
#[global] Instance CertificatesDurationSpec_eq_dec : EqDecision CertificatesDurationSpec.
Proof. solve_decision. Defined.
#[global] Instance MTLSSpec_eq_dec : EqDecision MTLSSpec.
Proof. solve_decision. Defined.
#[global] Instance ClusterSpec_eq_dec : EqDecision ClusterSpec.
Proof. solve_decision. Defined.

(** [reflect.DeepEqual] on two specs. *)
Definition DeepEqual (a b : ClusterSpec) : bool := bool_decide (a = b).

Definition CertManagerMTLSProvider : string := "cert-manager".

(** Modelled from the spec: [MTLSWithCertManagerEnabled] of [api/v1beta1],
    which is not among the sources: mutual TLS is enabled, that is, the
    policy is present and names the certificate manager as its provider. *)
Definition MTLSWithCertManagerEnabled (cluster : TemporalCluster) : bool :=
  match MTLS (Spec cluster) with
  | Some mtls => bool_decide (Provider mtls = CertManagerMTLSProvider)
  | None => false
  end.

(** Modelled from the spec: [IsReady] of [api/v1beta1], which is not among
    the sources: a Ready condition with status True. *)
Definition IsReady (cluster : TemporalCluster) : bool :=
  match cluster_Conditions cluster !! ReadyCondition with
  | Some c => bool_decide (cond_Status c = ConditionTrue)
  | None => false
  end.

(** *** The namespace *)

(** [v1beta1.TemporalNamespace]: the metadata, spec and status fields the
    reconciler reads or writes. *)
Record TemporalNamespace := {
  ns_Name : string;
  DeletionTimestamp : option Z;
  Finalizers : list string;
  AllowDeletion : bool;
  CustomSearchAttributes : gmap string string;
  ns_Conditions : gmap string Condition;
}.

Definition GetName (namespace : TemporalNamespace) : string := ns_Name namespace.

Definition set_Finalizers (namespace : TemporalNamespace) (fs : list string)
    : TemporalNamespace :=
  {| ns_Name := ns_Name namespace;
     DeletionTimestamp := DeletionTimestamp namespace;
     Finalizers := fs;
     AllowDeletion := AllowDeletion namespace;
     CustomSearchAttributes := CustomSearchAttributes namespace;
     ns_Conditions := ns_Conditions namespace |}.

Definition set_Conditions (namespace : TemporalNamespace)
    (cs : gmap string Condition) : TemporalNamespace :=
  {| ns_Name := ns_Name namespace;
     DeletionTimestamp := DeletionTimestamp namespace;
     Finalizers := Finalizers namespace;
     AllowDeletion := AllowDeletion namespace;
     CustomSearchAttributes := CustomSearchAttributes namespace;
     ns_Conditions := cs |}.

(** The condition setters of [api/v1beta1], over [setCondition]. *)
Definition SetTemporalNamespaceReady (namespace : TemporalNamespace)
    (status : ConditionStatus) (reason message : string) : TemporalNamespace :=
  set_Conditions namespace
    (setCondition (ns_Conditions namespace) ReadyCondition status reason message).

Definition SetTemporalNamespaceReconcileSuccess (namespace : TemporalNamespace)
    (status : ConditionStatus) (reason message : string) : TemporalNamespace :=
  set_Conditions namespace
    (setCondition (ns_Conditions namespace) ReconcileSuccessCondition status reason message).

Definition SetTemporalNamespaceReconcileError (namespace : TemporalNamespace)
    (status : ConditionStatus) (reason message : string) : TemporalNamespace :=
  set_Conditions namespace
    (setCondition (ns_Conditions namespace) ReconcileErrorCondition status reason message).

(** *** Finalizers (controllerutil) *)

(** Modelled from the spec: the constant [deletionFinalizer], declared in a
    file of the controllers package that is not among the sources; an opaque
    string marker. *)
Definition deletionFinalizer : string := "deletion.finalizers.temporal.io".

Definition ContainsFinalizer (namespace : TemporalNamespace) (finalizer : string) : bool :=
  bool_decide (finalizer ∈ Finalizers namespace).

(** Appends the finalizer unless it is there. *)
Definition AddFinalizer (namespace : TemporalNamespace) (finalizer : string)
    : TemporalNamespace :=
  if ContainsFinalizer namespace finalizer then namespace
  else set_Finalizers namespace (Finalizers namespace ++ [finalizer]).

(** Drops every occurrence of the finalizer. *)
Definition RemoveFinalizer (namespace : TemporalNamespace) (finalizer : string)
    : TemporalNamespace :=
  set_Finalizers namespace (filter (λ f, f ≠ finalizer) (Finalizers namespace)).

(** ** The remote platform *)

(** The requests a pass can send to the Temporal server. *)
Inductive RemoteCall :=
| RegisterNamespace (name : string)
| UpdateNamespace (name : string)
| DeleteNamespace (name : string)
| ListSearchAttributes (ns : string)
| RemoveSearchAttributes (ns : string) (names : list string)
| AddSearchAttributes (ns : string) (attributes : gmap string IndexedValueType).

(** The server as the operator sees it: the custom search attributes of each
    namespace, the requests received so far (oldest first), the number of
    connections dialed so far and the connections that are still open. *)
Record World := {
  attributes : gmap string (gmap string IndexedValueType);
  rpcs : list RemoteCall;
  dialed : nat;
  live : list nat;
}.

(** What one pass meets: the objects the store returns and, for every call
    that can fail, the error it fails with ([None]: it succeeds).  A pass
    makes each of these calls at most once. *)
Record Env := {
  env_namespace : TemporalNamespace + error;   (* r.Get of the request's key *)
  env_helper : option error;                   (* patch.NewHelper *)
  env_cluster : TemporalCluster + error;       (* r.Get of the cluster reference *)
  env_patch : option error;                    (* patchHelper.Patch *)
  env_namespace_client : option error;         (* temporal.GetClusterNamespaceClient *)
  env_client : option error;                   (* temporal.GetClusterClient *)
  env_register : option error;
  env_update : option error;
  env_delete : option error;
  env_list : option error;
  env_remove : option error;
  env_add : option error;
}.

(** Modelled from the spec: the remote platform client boundary.  The wire
    client of [pkg/temporal] and of the Temporal SDK is opaque: dialing
    yields a fresh connection or fails, a request is received by the server
    and then succeeds or fails, and a failed request leaves the server's
    attributes as they were. *)
Definition dial (fault : option error) (w : World) : (nat + error) * World :=
  match fault with
  | Some err => (inr err, w)
  | None =>
    (inl (dialed w),
     {| attributes := attributes w; rpcs := rpcs w;
        dialed := S (dialed w); live := live w ++ [dialed w] |})
  end.

Definition GetClusterNamespaceClient (env : Env) (cluster : TemporalCluster) :=
  dial (env_namespace_client env).

Definition GetClusterClient (env : Env) (cluster : TemporalCluster) :=
  dial (env_client env).

(** [client.Close()]. *)
Definition Close (client : nat) (w : World) : World :=
  {| attributes := attributes w; rpcs := rpcs w;
     dialed := dialed w; live := filter (λ c, c ≠ client) (live w) |}.

Definition request (call : RemoteCall) (fault : option error)
    (effect : gmap string (gmap string IndexedValueType) →
              gmap string (gmap string IndexedValueType))
    (w : World) : option error * World :=
  (fault,
   {| attributes := match fault with
                    | Some _ => attributes w
                    | None => effect (attributes w)
                    end;
      rpcs := rpcs w ++ [call];
      dialed := dialed w; live := live w |}).

(** The custom search attributes of a namespace on the server. *)
Definition server_attributes (w : World) (ns : string) : gmap string IndexedValueType :=
  default ∅ (attributes w !! ns).

Definition Register (env : Env) (client : nat) (name : string) :=
  request (RegisterNamespace name) (env_register env) id.

Definition Update (env : Env) (client : nat) (name : string) :=
  request (UpdateNamespace name) (env_update env) id.

Definition OperatorService_DeleteNamespace (env : Env) (client : nat) (name : string) :=
  request (DeleteNamespace name) (env_delete env) id.

(** [listAttributes(namespaceName)]: the server's mapping. *)
Definition OperatorService_ListSearchAttributes (env : Env) (client : nat)
    (ns : string) (w : World)
    : (gmap string IndexedValueType + error) * World :=
  match request (ListSearchAttributes ns) (env_list env) id w with
  | (Some err, w') => (inr err, w')
  | (None, w') => (inl (server_attributes w ns), w')
  end.

(** [removeAttributes(namespaceName, names)]: the names leave the mapping. *)
Definition OperatorService_RemoveSearchAttributes (env : Env) (client : nat)
    (ns : string) (names : list string) :=
  request (RemoveSearchAttributes ns names) (env_remove env)
    (λ srv, <[ns := foldr delete (default ∅ (srv !! ns)) names]> srv).

(** [addAttributes(namespaceName, mapping)]: the pairs join the mapping. *)
Definition OperatorService_AddSearchAttributes (env : Env) (client : nat)
    (ns : string) (added : gmap string IndexedValueType) :=
  request (AddSearchAttributes ns added) (env_add env)
    (λ srv, <[ns := added ∪ default ∅ (srv !! ns)]> srv).

(** ** The namespace reconciler *)

(** [ctrl.Result]. *)
Record Result := {
  Requeue : bool;
  RequeueAfter : Z;
}.

#[global] Instance Result_eq_dec : EqDecision Result.
Proof. solve_decision. Defined.

(** *** reconcileCustomSearchAttributes *)

(** Lines 179-186: the spec's string-typed map becomes an enum-typed map;
    the first type string that does not parse ends the pass. *)
Fixpoint translate_loop (entries : list (string * string))
    (specCustomSearchAttributes : gmap string IndexedValueType)
    : gmap string IndexedValueType + error :=
  match entries with
  | [] => inl specCustomSearchAttributes
  | (searchAttributeNameString, searchAttributeTypeString) :: rest =>
    match searchAttributeTypeStringToEnum searchAttributeTypeString with
    | (_, Some err) =>
      inr (Wrapf ("failed to parse search attribute " +:+ searchAttributeNameString
                  +:+ " because its type is " +:+ searchAttributeTypeString +:+ ": ") err)
    | (indexedValueType, None) =>
      translate_loop rest
        (<[searchAttributeNameString := indexedValueType]> specCustomSearchAttributes)
    end
  end.

(** Lines 204-210: the server's names that the spec does not have. *)
Fixpoint remove_loop (entries : list (string * IndexedValueType))
    (specCustomSearchAttributes : gmap string IndexedValueType)
    (customSearchAttributesToRemove : list string) : list string :=
  match entries with
  | [] => customSearchAttributesToRemove
  | (serverSearchAttributeName, _) :: rest =>
    remove_loop rest specCustomSearchAttributes
      (match specCustomSearchAttributes !! serverSearchAttributeName with
       | Some _ => customSearchAttributesToRemove
       | None => customSearchAttributesToRemove ++ [serverSearchAttributeName]
       end)
  end.

(** Lines 214-222: the spec's pairs that the server does not have; a name
    the server has with another type ends the pass. *)
Fixpoint add_loop (entries : list (string * IndexedValueType))
    (serverCustomSearchAttributes : gmap string IndexedValueType)
    (customSearchAttributesToAdd : gmap string IndexedValueType)
    : gmap string IndexedValueType + error :=
  match entries with
  | [] => inl customSearchAttributesToAdd
  | (specSearchAttributeName, specSearchAttributeType) :: rest =>
    match serverCustomSearchAttributes !! specSearchAttributeName with
    | None =>
      add_loop rest serverCustomSearchAttributes
        (<[specSearchAttributeName := specSearchAttributeType]> customSearchAttributesToAdd)
    | Some serverSearchAttributeType =>
      if decide (specSearchAttributeType ≠ serverSearchAttributeType)
      then inr (Errorf ("search attribute " +:+ specSearchAttributeName
                        +:+ " already exists and has different type "
                        +:+ IndexedValueType_String serverSearchAttributeType))
      else add_loop rest serverCustomSearchAttributes customSearchAttributesToAdd
    end
  end.

(** The function itself.  Go ranges over a map in no fixed order;
    [map_to_list] stands for the order a run happens to take, and the facts
    proved of the three loops below hold for every order.  The client dialed
    on the first line is not closed on any path. *)
Definition reconcileCustomSearchAttributes (env : Env)
    (namespace : TemporalNamespace) (cluster : TemporalCluster) (w : World)
    : option error * World :=
  match GetClusterClient env cluster w with
  | (inr err, w) => (Some err, w)
  | (inl client, w) =>
    let ns := GetName namespace in
    match OperatorService_ListSearchAttributes env client ns w with
    | (inr err, w) => (Some err, w)
    | (inl serverCustomSearchAttributes, w) =>
      match translate_loop (map_to_list (CustomSearchAttributes namespace)) ∅ with
      | inr err => (Some err, w)
      | inl specCustomSearchAttributes =>
        let customSearchAttributesToRemove :=
          remove_loop (map_to_list serverCustomSearchAttributes)
            specCustomSearchAttributes [] in
        match add_loop (map_to_list specCustomSearchAttributes)
                serverCustomSearchAttributes ∅ with
        | inr err => (Some err, w)
        | inl customSearchAttributesToAdd =>
          match
            (if (0 <? length customSearchAttributesToRemove)%nat
             then
               match OperatorService_RemoveSearchAttributes env client ns
                       customSearchAttributesToRemove w with
               | (Some err, w) => (Some (Wrapf "failed to remove search attributes: " err), w)
               | (None, w) => (None, w)
               end
             else (None, w))
          with
          | (Some err, w) => (Some err, w)
          | (None, w) =>
            if (0 <? size customSearchAttributesToAdd)%nat
            then
              match OperatorService_AddSearchAttributes env client ns
                      customSearchAttributesToAdd w with
              | (Some err, w) => (Some (Wrapf "failed to add search attributes: " err), w)
              | (None, w) => (None, w)
              end
            else (None, w)
          end
        end
      end
    end
  end.

(** *** Finalizer and deletion *)

Definition ensureFinalizer (namespace : TemporalNamespace) : TemporalNamespace :=
  if Time_IsZero (DeletionTimestamp namespace) && AllowDeletion namespace
  then AddFinalizer namespace deletionFinalizer
  else namespace.

(** The part of [ensureNamespaceDeleted] under [defer client.Close()]. *)
Definition ensureNamespaceDeleted_withClient (env : Env)
    (namespace : TemporalNamespace) (client : nat) (w : World)
    : option error * TemporalNamespace * World :=
  match OperatorService_DeleteNamespace env client (GetName namespace) w with
  | (Some err, w) =>
    if As NamespaceNotFound err
    then (None, RemoveFinalizer namespace deletionFinalizer, w)
    else (Some (Wrapf ("can't delete " +:+ GoStrings.dquote +:+ GetName namespace
                       +:+ GoStrings.dquote +:+ " namespace: ") err),
          namespace, w)
  | (None, w) => (None, RemoveFinalizer namespace deletionFinalizer, w)
  end.

Definition ensureNamespaceDeleted (env : Env)
    (namespace : TemporalNamespace) (cluster : TemporalCluster) (w : World)
    : option error * TemporalNamespace * World :=
  if negb (ContainsFinalizer namespace deletionFinalizer)
  then (None, namespace, w)
  else
    match GetClusterClient env cluster w with
    | (inr err, w) => (Some (Wrapf "can't create cluster client: " err), namespace, w)
    | (inl client, w) =>
      let '(err, namespace, w) := ensureNamespaceDeleted_withClient env namespace client w in
      (err, namespace, Close client w)
    end.

(** *** Outcomes *)

Definition handleSuccessWithRequeue (namespace : TemporalNamespace) (requeueAfter : Z)
    : TemporalNamespace * (Result * option error) :=
  (SetTemporalNamespaceReconcileSuccess namespace ConditionTrue ReconcileSuccessReason
     EmptyString,
   ({| Requeue := false; RequeueAfter := requeueAfter |}, None)).

Definition handleSuccess (namespace : TemporalNamespace)
    : TemporalNamespace * (Result * option error) :=
  handleSuccessWithRequeue namespace 0.

Definition handleErrorWithRequeue (namespace : TemporalNamespace) (reason : string)
    (err : error) (requeueAfter : Z)
    : TemporalNamespace * (Result * option error) :=
  let reason := if decide (reason = EmptyString) then ReconcileErrorReason else reason in
  (SetTemporalNamespaceReconcileError namespace ConditionTrue reason (Error err),
   ({| Requeue := false; RequeueAfter := requeueAfter |}, None)).

Definition handleError (namespace : TemporalNamespace) (reason : string) (err : error)
    : TemporalNamespace * (Result * option error) :=
  handleErrorWithRequeue namespace reason err 0.

(** *** Reconcile *)

(** [reconcile.Result{}]. *)
Definition Result_zero : Result := {| Requeue := false; RequeueAfter := 0 |}.

(** Lines 129-153, under [defer client.Close()].  [converge] is the rest
    of the pass from line 143 on, which both a successful register and a
    successful update flow into. *)
Definition Reconcile_withClient (env : Env) (namespace : TemporalNamespace)
    (cluster : TemporalCluster) (client : nat) (w : World)
    : TemporalNamespace * (Result * option error) * World :=
  let converge (w : World) :=
    match reconcileCustomSearchAttributes env namespace cluster w with
    | (Some err, w) => (handleError namespace ReconcileErrorReason err, w)
    | (None, w) =>
      let namespace :=
        SetTemporalNamespaceReady namespace ConditionTrue TemporalNamespaceCreatedReason
          "Namespace successfully created" in
      (handleSuccess namespace, w)
    end in
  match Register env client (GetName namespace) w with
  | (Some err, w) =>
    if negb (As NamespaceAlreadyExists err)
    then
      (handleError namespace ReconcileErrorReason
         (Wrapf ("can't create " +:+ GoStrings.dquote +:+ GetName namespace
                 +:+ GoStrings.dquote +:+ " namespace: ") err),
       w)
    else
      match Update env client (GetName namespace) w with
      | (Some err, w) => (handleError namespace ReconcileErrorReason err, w)
      | (None, w) => converge w
      end
  | (None, w) => converge w
  end.

(** Lines 89-153, under the deferred patch. *)
Definition Reconcile_body (env : Env) (namespace : TemporalNamespace) (w : World)
    : TemporalNamespace * (Result * option error) * World :=
  match env_cluster env with
  | inr err =>
    if IsNotFound err && negb (Time_IsZero (DeletionTimestamp namespace))
    then (RemoveFinalizer namespace deletionFinalizer, (Result_zero, None), w)
    else (handleError namespace ReconcileErrorReason err, w)
  | inl cluster =>
    if negb (IsReady cluster)
    then (namespace, ({| Requeue := false; RequeueAfter := 10 * Second |}, None), w)
    else if negb (Time_IsZero (DeletionTimestamp namespace))
    then
      match ensureNamespaceDeleted env namespace cluster w with
      | (Some err, namespace, w) => (handleError namespace ReconcileErrorReason err, w)
      | (None, namespace, w) => (namespace, (Result_zero, None), w)
      end
    else
      let namespace := ensureFinalizer namespace in
      match GetClusterNamespaceClient env cluster w with
      | (inr err, w) =>
        (handleError namespace ReconcileErrorReason
           (Wrapf "can't create cluster namespace client: " err),
         w)
      | (inl client, w) =>
        let '(namespace, outcome, w) :=
          Reconcile_withClient env namespace cluster client w in
        (namespace, outcome, Close client w)
      end
  end.

(** One pass: its outcome for the runtime, the object handed to the patch
    ([None] when the pass ended before loading it) and the remote world
    after it. *)
Record Pass := {
  pass_result : Result;
  pass_err : option error;
  pass_object : option TemporalNamespace;
  pass_world : World;
}.

Definition Reconcile (env : Env) (w : World) : Pass :=
  match env_namespace env with
  | inr err =>
    if IsNotFound err
    then {| pass_result := Result_zero; pass_err := None;
            pass_object := None; pass_world := w |}
    else {| pass_result := Result_zero; pass_err := Some err;
            pass_object := None; pass_world := w |}
  | inl namespace =>
    match env_helper env with
    | Some err => {| pass_result := Result_zero; pass_err := Some err;
                     pass_object := None; pass_world := w |}
    | None =>
      let '(namespace, (result, reterr), w) := Reconcile_body env namespace w in
      (* Always attempt to Patch the object and status after each reconciliation. *)
      let reterr :=
        match env_patch env with
        | Some err => NewAggregate [reterr; Some err]
        | None => reterr
        end in
      {| pass_result := result; pass_err := reterr;
         pass_object := Some namespace; pass_world := w |}
    end
  end.

(** The runtime's reading of what [Reconcile] returns (controller-runtime):
    an error is retried with backoff, a positive [RequeueAfter] after that
    delay, [Requeue] with backoff, and anything else is not retried. *)
Inductive RetryDecision :=
| RetryWithBackoff
| RetryAfter (delay : Z)
| NoRetry.

Definition runtime_decision (outcome : Result * option error) : RetryDecision :=
  match outcome with
  | (_, Some _) => RetryWithBackoff
  | (result, None) =>
    if 0 <? RequeueAfter result then RetryAfter (RequeueAfter result)
    else if Requeue result then RetryWithBackoff
    else NoRetry
  end.

(** ** The defaults normalizer *)

Definition defaultTemporalVersion : string := "1.17.4".
Definition defaultTemporalImage : string := "temporalio/server".
Definition defaultTemporalUIVersion : string := "2.5.0".
Definition defaultTemporalUIImage : string := "temporalio/ui".
Definition defaultTemporalAdmintoolsImage : string := "temporalio/admin-tools".

(** The three shapes of [if x == zero { x = d }]: an empty string takes the
    default, a nil pointer to a struct is allocated, and a nil pointer to a
    scalar points to the default. *)
Definition or_string (s d : string) : string :=
  if decide (s = EmptyString) then d else s.

Definition or_new {A : Type} (p : option A) (zero : A) : A :=
  match p with
  | Some v => v
  | None => zero
  end.

Definition or_pointer {A : Type} (p : option A) (d : A) : option A :=
  match p with
  | Some v => Some v
  | None => Some d
  end.

(** [new(T)]: the zero value of each struct. *)
Definition new_ServiceSpec : ServiceSpec :=
  {| Replicas := None; Port := None; MembershipPort := None; HTTPPort := None |}.

Definition new_TemporalServicesSpec : TemporalServicesSpec :=
  {| Frontend := None; History := None; Matching := None; Worker := None |}.

Definition new_TemporalUISpec : TemporalUISpec :=
  {| ui_Version := EmptyString; ui_Image := EmptyString |}.

Definition new_TemporalAdminToolsSpec : TemporalAdminToolsSpec :=
  {| admintools_Image := EmptyString |}.

Definition new_CertificatesDurationSpec : CertificatesDurationSpec :=
  {| RootCACertificate := None; IntermediateCAsCertificates := None;
     ClientCertificates := None; FrontendCertificate := None;
     InternodeCertificate := None |}.

(** Lines 105-111: the body of the loop over the datastores; the loop
    variable is a copy, but its [SQL] pointer is the datastore's own. *)
Definition default_datastore (datastore : DatastoreSpec) : DatastoreSpec :=
  match SQL datastore with
  | Some sql =>
    {| ds_Name := ds_Name datastore;
       SQL := Some {| ConnectProtocol := or_string (ConnectProtocol sql) "tcp" |} |}
  | None => datastore
  end.

(** Lines 137-159: the mutual TLS defaults. *)
Definition default_mtls (mtls : MTLSSpec) : MTLSSpec :=
  let refreshInterval := or_pointer (RefreshInterval mtls) Hour in
  let durations := or_new (CertificatesDuration mtls) new_CertificatesDurationSpec in
  {| Provider := Provider mtls;
     RefreshInterval := refreshInterval;
     CertificatesDuration := Some
       {| RootCACertificate := or_pointer (RootCACertificate durations) (Hour * 87600);
          IntermediateCAsCertificates :=
            or_pointer (IntermediateCAsCertificates durations) (Hour * 43830);
          ClientCertificates := or_pointer (ClientCertificates durations) (Hour * 8766);
          FrontendCertificate := or_pointer (FrontendCertificate durations) (Hour * 8766);
          InternodeCertificate := or_pointer (InternodeCertificate durations) (Hour * 8766)
       |} |}.

(** [reconcileDefaults]: every assignment of the source in its order, each
    [let] naming the field that the statement leaves behind; the record at
    the end is the cluster the pointer then refers to.  The statements
    before the mutual TLS block leave [MTLS] as it was, so the block's guard
    reads it from the cluster as given. *)
Definition reconcileDefaults (cluster : TemporalCluster) : TemporalCluster * bool :=
  let before := cluster in
  let spec := Spec cluster in
  let version := or_string (Version spec) defaultTemporalVersion in
  let image := or_string (Image spec) defaultTemporalImage in
  let services := or_new (Services spec) new_TemporalServicesSpec in
  (* Frontend specs *)
  let frontend := or_new (Frontend services) new_ServiceSpec in
  let frontend :=
    {| Replicas := or_pointer (Replicas frontend) 1;
       Port := or_pointer (Port frontend) 7233;
       MembershipPort := or_pointer (MembershipPort frontend) 6933;
       HTTPPort := HTTPPort frontend |} in
  (* History specs *)
  let history := or_new (History services) new_ServiceSpec in
  let history :=
    {| Replicas := or_pointer (Replicas history) 1;
       Port := or_pointer (Port history) 7234;
       MembershipPort := or_pointer (MembershipPort history) 6934;
       HTTPPort := HTTPPort history |} in
  (* Matching specs *)
  let matching := or_new (Matching services) new_ServiceSpec in
  let matching :=
    {| Replicas := or_pointer (Replicas matching) 1;
       Port := or_pointer (Port matching) 7235;
       MembershipPort := or_pointer (MembershipPort matching) 6935;
       HTTPPort := HTTPPort matching |} in
  (* Worker specs *)
  let worker := or_new (Worker services) new_ServiceSpec in
  let worker :=
    {| Replicas := or_pointer (Replicas worker) 1;
       Port := or_pointer (Port worker) 7239;
       MembershipPort := or_pointer (MembershipPort worker) 6939;
       HTTPPort := HTTPPort worker |} in
  let datastores := map default_datastore (Datastores spec) in
  let persistence :=
    {| DefaultStore := DefaultStore (Persistence spec);
       VisibilityStore :=
         if decide (VisibilityStore (Persistence spec) = EmptyString)
         then DefaultStore (Persistence spec)
         else VisibilityStore (Persistence spec) |} in
  let ui := or_new (UI spec) new_TemporalUISpec in
  let ui :=
    {| ui_Version := or_string (ui_Version ui) defaultTemporalUIVersion;
       ui_Image := or_string (ui_Image ui) defaultTemporalUIImage |} in
  let adminTools := or_new (AdminTools spec) new_TemporalAdminToolsSpec in
  let adminTools :=
    {| admintools_Image := or_string (admintools_Image adminTools)
                             defaultTemporalAdmintoolsImage |} in
  let mtls :=
    if MTLSWithCertManagerEnabled cluster
    then default_mtls <$> MTLS spec
    else MTLS spec in
  let after :=
    {| Version := version;
       Image := image;
       Services := Some {| Frontend := Some frontend; History := Some history;
                           Matching := Some matching; Worker := Some worker |};
       Datastores := datastores;
       Persistence := persistence;
       UI := Some ui;
       AdminTools := Some adminTools;
       MTLS := mtls |} in
  ({| cluster_Name := cluster_Name cluster;
      cluster_Namespace := cluster_Namespace cluster;
      cluster_Labels := cluster_Labels cluster;
      cluster_Annotations := cluster_Annotations cluster;
      Spec := after;
      cluster_Conditions := cluster_Conditions cluster |},
   negb (DeepEqual (Spec before) after)).

(** ** The frontend service builder *)

(** [intstr.IntOrString]. *)
Inductive IntOrString :=
| FromInt (i : Z)
| FromString (s : string).

(** [corev1.ServicePort]. *)
Record ServicePort := {
  port_Name : string;
  port_Protocol : string;
  port_Port : Z;
  port_TargetPort : IntOrString;
}.

Record OwnerReference := {
  owner_Kind : string;
  owner_Name : string;
  owner_Controller : bool;
}.

(** [metav1.ObjectMeta]. *)
Record ObjectMeta := {
  meta_Name : string;
  meta_Namespace : string;
  meta_Labels : gmap string string;
  meta_Annotations : gmap string string;
  meta_OwnerReferences : list OwnerReference;
}.

(** [corev1.ServiceSpec]. *)
Record CoreServiceSpec := {
  service_Type : string;
  service_Selector : gmap string string;
  service_Ports : list ServicePort;
}.

(** [corev1.Service]. *)
Record Service := {
  service_Meta : ObjectMeta;
  service_Spec : CoreServiceSpec;
}.

Definition ServiceTypeClusterIP : string := "ClusterIP".
Definition ProtocolTCP : string := "TCP".

(** What the builder calls outside the sources at hand: the child resource
    name of the cluster type, the label and annotation sets of
    [internal/metadata], and controllerutil's [SetControllerReference],
    which sees the controlled object through its metadata only. *)
Class Helpers := {
  ChildResourceName : TemporalCluster → string → string;
  GetLabels : TemporalCluster → string → string → gmap string string → gmap string string;
  GetAnnotations : string → gmap string string → gmap string string;
  LabelsSelector : TemporalCluster → string → gmap string string;
  SetControllerReference : TemporalCluster → ObjectMeta → ObjectMeta * option error;
}.

(** Modelled from the spec: [metadata.Merge], which is not among the
    sources: union with override, the later map replacing the keys it
    shares with the earlier one. *)
Definition Merge (existing desired : gmap string string) : gmap string string :=
  desired ∪ existing.

Module FrontendServiceBuilder.

(** [meta.FrontendService] and [primitives.FrontendService]. *)
Definition meta_FrontendService : string := "frontend".
Definition primitives_FrontendService : string := "frontend".

(** The builder; its scheme is only handed on to [SetControllerReference]. *)
Record builder := {
  instance : TemporalCluster;
}.

Definition Build `{!Helpers} (b : builder) : Service :=
  {| service_Meta :=
       {| meta_Name := ChildResourceName (instance b) meta_FrontendService;
          meta_Namespace := cluster_Namespace (instance b);
          meta_Labels := GetLabels (instance b) meta_FrontendService
                           (Version (Spec (instance b))) (cluster_Labels (instance b));
          meta_Annotations := GetAnnotations (cluster_Name (instance b))
                                (cluster_Annotations (instance b));
          meta_OwnerReferences := [] |};
     service_Spec :=
       {| service_Type := EmptyString; service_Selector := ∅; service_Ports := [] |} |}.

Definition Enabled (b : builder) : bool := true.

(** [Update]: the service after the call and the error returned, or [None]
    when the call panics on a nil pointer ([Services], [Frontend] or
    [Frontend.Port] unset). *)
Definition Update `{!Helpers} (b : builder) (object : Service)
    : option (Service * option error) :=
  let labels :=
    Merge (meta_Labels (service_Meta object))
      (GetLabels (instance b) meta_FrontendService
         (Version (Spec (instance b))) (cluster_Labels (instance b))) in
  let annotations :=
    Merge (meta_Annotations (service_Meta object))
      (GetAnnotations (cluster_Name (instance b)) (cluster_Annotations (instance b))) in
  let selector := LabelsSelector (instance b) primitives_FrontendService in
  services ← Services (Spec (instance b));
  frontend ← Frontend services;
  port ← Port frontend;
  let ports :=
    [ {| port_Name := "grpc-rpc"; port_Protocol := ProtocolTCP;
         port_Port := port; port_TargetPort := FromString "rpc" |} ] in
  let ports :=
    match HTTPPort frontend with
    | Some httpPort =>
      (ports ++ [ {| port_Name := "http"; port_Protocol := ProtocolTCP;
                     port_Port := httpPort; port_TargetPort := FromString "http" |} ])%list
    | None => ports
    end in
  let meta :=
    {| meta_Name := meta_Name (service_Meta object);
       meta_Namespace := meta_Namespace (service_Meta object);
       meta_Labels := labels;
       meta_Annotations := annotations;
       meta_OwnerReferences := meta_OwnerReferences (service_Meta object) |} in
  let '(meta, err) := SetControllerReference (instance b) meta in
  let service :=
    {| service_Meta := meta;
       service_Spec := {| service_Type := ServiceTypeClusterIP;
                          service_Selector := selector;
                          service_Ports := ports |} |} in
  Some (service,
        match err with
        | Some err => Some (Wrapf "failed setting controller reference: " err)
        | None => None
        end).

End FrontendServiceBuilder.

(** ** The dependency index and propagator *)

(** [types.NamespacedName]: the key of an object in the store. *)
Record ObjectKey := {
  key_Namespace : string;
  key_Name : string;
}.

#[global] Instance ObjectKey_eq_dec : EqDecision ObjectKey.
Proof. solve_decision. Defined.

(** The cluster reference of a namespace's spec. *)
Record ClusterReference := {
  ref_Name : string;
  ref_Namespace : string;
}.

(** A [v1beta1.TemporalNamespace] as the index and the propagator read it:
    its key and its cluster reference. *)
Record ReferringNamespace := {
  referring_Namespace : string;
  referring_Name : string;
  ClusterRef : ClusterReference;
}.

(** [reconcile.Request]. *)
Record Request := {
  request_NamespacedName : ObjectKey;
}.

#[global] Instance Request_eq_dec : EqDecision Request.
Proof. solve_decision. Defined.

(** Modelled from the spec: [ClusterRef.NamespacedName] of [api/v1beta1],
    which is not among the sources: the cluster's name and the namespace of
    the reference, defaulting to the referencing object's own namespace if
    unset. *)
Definition NamespacedName (ref : ClusterReference) (obj : ReferringNamespace) : ObjectKey :=
  {| key_Namespace := if decide (ref_Namespace ref = EmptyString)
                      then referring_Namespace obj else ref_Namespace ref;
     key_Name := ref_Name ref |}.

(** [client.ObjectKeyFromObject] on a namespace and on a cluster. *)
Definition ObjectKeyFromObject (obj : ReferringNamespace) : ObjectKey :=
  {| key_Namespace := referring_Namespace obj; key_Name := referring_Name obj |}.

Definition ObjectKeyFromCluster (cluster : TemporalCluster) : ObjectKey :=
  {| key_Namespace := cluster_Namespace cluster; key_Name := cluster_Name cluster |}.

(** Lines 354-360, the index function [SetupWithManager] registers under
    [clusterRefField]: the referenced cluster's name, and nothing for an
    empty name. *)
Definition clusterRefIndex (temporalNamespace : ReferringNamespace) : list string :=
  if decide (ref_Name (ClusterRef temporalNamespace) = EmptyString) then []
  else [ref_Name (ClusterRef temporalNamespace)].

(** The [client.Object] handed to the map function: a cluster, or an object
    of another kind. *)
Inductive Object :=
| ClusterObject (cluster : TemporalCluster)
| OtherObject.

(** The namespaces in the store, and the error the list call fails with
    ([None]: it succeeds). *)
Record Store := {
  store_namespaces : list ReferringNamespace;
  store_list : option error;
}.

(** Modelled from the spec: list-by-field-index of the object store
    boundary: the objects, in the store's order, one of whose values under
    the index is the selector's. *)
Definition List_by_clusterRef (store : Store) (value : string)
    : list ReferringNamespace + error :=
  match store_list store with
  | Some err => inr err
  | None => inl (filter (λ n, value ∈ clusterRefIndex n) (store_namespaces store))
  end.

(** Lines 338-347: the loop over the listed namespaces. *)
Fixpoint mapfunc_loop (items : list ReferringNamespace) (cluster : TemporalCluster)
    (result : list Request) : list Request :=
  match items with
  | [] => result
  | namespace :: rest =>
    if decide (NamespacedName (ClusterRef namespace) namespace ≠ ObjectKeyFromCluster cluster)
    then mapfunc_loop rest cluster result
    else mapfunc_loop rest cluster
           (result ++ [ {| request_NamespacedName := ObjectKeyFromObject namespace |} ])
  end.

(** [clusterToNamespacesMapfunc]; Go's nil slice and its empty slice are both
    the empty list. *)
Definition clusterToNamespacesMapfunc (store : Store) (o : Object) : list Request :=
  match o with
  | OtherObject => []
  | ClusterObject cluster =>
    match List_by_clusterRef store (cluster_Name cluster) with
    | inr _ => []
    | inl temporalNamespaces => mapfunc_loop temporalNamespaces cluster []
    end
  end.

(** ** The headless service builder *)

(** [corev1.Service] with the two further spec fields that the headless
    builder writes. *)
Record HeadlessService := {
  headless_Service : Service;
  headless_ClusterIP : string;
  headless_PublishNotReadyAddresses : bool;
}.

Definition ClusterIPNone : string := "None".

(** What the headless builder calls outside the sources at hand, besides
    [Helpers]: the headless label set of [internal/metadata], the package's
    [isBuilderEnabled], and the metrics port name of
    [internal/resource/prometheus]. *)
Class HeadlessHelpers := {
  HeadlessLabels : gmap string string;
  isBuilderEnabled : TemporalCluster → string → bool;
  MetricsPortName : IntOrString;
}.

Module HeadlessServiceBuilder.

(** The builder; [service] is the pointer to the logical service's spec. *)
Record builder := {
  serviceName : string;
  instance : TemporalCluster;
  service : option ServiceSpec;
}.

Definition Build `{!Helpers} `{!HeadlessHelpers} (b : builder) : HeadlessService :=
  {| headless_Service :=
       {| service_Meta :=
            {| meta_Name := ChildResourceName (instance b) (serviceName b +:+ "-headless");
               meta_Namespace := cluster_Namespace (instance b);
               meta_Labels :=
                 Merge (GetLabels (instance b) (serviceName b)
                          (Version (Spec (instance b))) (cluster_Labels (instance b)))
                   HeadlessLabels;
               meta_Annotations := GetAnnotations (cluster_Name (instance b))
                                     (cluster_Annotations (instance b));
               meta_OwnerReferences := [] |};
          service_Spec :=
            {| service_Type := EmptyString; service_Selector := ∅; service_Ports := [] |} |};
     headless_ClusterIP := EmptyString;
     headless_PublishNotReadyAddresses := false |}.

Definition Enabled `{!HeadlessHelpers} (b : builder) : bool :=
  isBuilderEnabled (instance b) (serviceName b).

(** [Update]: the service after the call and the error returned, or [None]
    when the call panics on a nil pointer ([service], its [Port] or its
    [MembershipPort] unset). *)
Definition Update `{!Helpers} `{!HeadlessHelpers} (b : builder) (object : HeadlessService)
    : option (HeadlessService * option error) :=
  let observed := service_Meta (headless_Service object) in
  let labels :=
    Merge (Merge (meta_Labels observed)
             (GetLabels (instance b) (serviceName b)
                (Version (Spec (instance b))) (cluster_Labels (instance b))))
      HeadlessLabels in
  let annotations :=
    Merge (meta_Annotations observed)
      (GetAnnotations (cluster_Name (instance b)) (cluster_Annotations (instance b))) in
  let selector := LabelsSelector (instance b) (serviceName b) in
  spec ← service b;
  port ← Port spec;
  membershipPort ← MembershipPort spec;
  let ports :=
    [ {| port_Name := "http-metrics"; port_Protocol := ProtocolTCP;
         port_Port := 9090; port_TargetPort := MetricsPortName |};
      {| port_Name := "tcp-rpc"; port_Protocol := ProtocolTCP;
         port_Port := port; port_TargetPort := FromString "rpc" |};
      {| port_Name := "tcp-membership"; port_Protocol := ProtocolTCP;
         port_Port := membershipPort; port_TargetPort := FromString "membership" |} ] in
  let meta :=
    {| meta_Name := meta_Name observed;
       meta_Namespace := meta_Namespace observed;
       meta_Labels := labels;
       meta_Annotations := annotations;
       meta_OwnerReferences := meta_OwnerReferences observed |} in
  let '(meta, err) := SetControllerReference (instance b) meta in
  Some ({| headless_Service :=
             {| service_Meta := meta;
                service_Spec := {| service_Type := ServiceTypeClusterIP;
                                   service_Selector := selector;
                                   service_Ports := ports |} |};
           headless_ClusterIP := ClusterIPNone;
           headless_PublishNotReadyAddresses := true |},
        match err with
        | Some err => Some (Wrapf "failed setting controller reference: " err)
        | None => None
        end).

End HeadlessServiceBuilder.

(** ** Specification vocabulary *)

(** *** Attribute reconciliation *)

(** The type a spec's type string declares. *)
Definition parse_type (s : string) : IndexedValueType :=
  (searchAttributeTypeStringToEnum s).1.

(** Every type string of the spec's mapping resolves. *)
Definition resolves (declared : gmap string string) : Prop :=
  map_Forall (λ _ s, (searchAttributeTypeStringToEnum s).2 = None) declared.

(** No name of [M] is held by [R] under another type. *)
Definition compatible (M R : gmap string IndexedValueType) : Prop :=
  map_Forall (λ n t, R !! n = None ∨ R !! n = Some t) M.

#[global] Instance resolves_dec declared : Decision (resolves declared).
Proof. unfold resolves. apply _. Defined.

#[global] Instance compatible_dec M R : Decision (compatible M R).
Proof. unfold compatible. apply _. Defined.

(** A world with another request log. *)
Definition set_rpcs (w : World) (calls : list RemoteCall) : World :=
  {| attributes := attributes w; rpcs := calls; dialed := dialed w; live := live w |}.

(** The same pass, met by a register call that succeeds. *)
Definition register_succeeds (env : Env) : Env :=
  {| env_namespace := env_namespace env; env_helper := env_helper env;
     env_cluster := env_cluster env; env_patch := env_patch env;
     env_namespace_client := env_namespace_client env; env_client := env_client env;
     env_register := None; env_update := env_update env; env_delete := env_delete env;
     env_list := env_list env; env_remove := env_remove env; env_add := env_add env |}.

(** The object carries the deletion finalizer. *)
Definition has_finalizer (namespace : TemporalNamespace) : bool :=
  ContainsFinalizer namespace deletionFinalizer.
(** *** What the defaults normalizer is to establish *)

Definition service_set (service : option ServiceSpec) : Prop :=
  ∃ s, service = Some s ∧
       is_Some (Replicas s) ∧ is_Some (Port s) ∧ is_Some (MembershipPort s).

Definition durations_set (durations : option CertificatesDurationSpec) : Prop :=
  ∃ d, durations = Some d ∧
       is_Some (RootCACertificate d) ∧ is_Some (IntermediateCAsCertificates d) ∧
       is_Some (ClientCertificates d) ∧ is_Some (FrontendCertificate d) ∧
       is_Some (InternodeCertificate d).

(** Every field the normalizer governs is set, the visibility store apart. *)
Definition defaults_set (spec : ClusterSpec) : Prop :=
  Version spec ≠ EmptyString ∧
  Image spec ≠ EmptyString ∧
  (∃ services, Services spec = Some services ∧
     service_set (Frontend services) ∧ service_set (History services) ∧
     service_set (Matching services) ∧ service_set (Worker services)) ∧
  Forall (λ datastore, ∀ sql, SQL datastore = Some sql →
                              ConnectProtocol sql ≠ EmptyString)
         (Datastores spec) ∧
  (∃ ui, UI spec = Some ui ∧ ui_Version ui ≠ EmptyString ∧ ui_Image ui ≠ EmptyString) ∧
  (∃ tools, AdminTools spec = Some tools ∧ admintools_Image tools ≠ EmptyString) ∧
  (∀ mtls, MTLS spec = Some mtls → Provider mtls = CertManagerMTLSProvider →
     is_Some (RefreshInterval mtls) ∧ durations_set (CertificatesDuration mtls)).

(** Every field the normalizer governs is set. *)
Definition all_defaults_set (spec : ClusterSpec) : Prop :=
  defaults_set spec ∧ VisibilityStore (Persistence spec) ≠ EmptyString.

(** *** What the defaults normalizer is to keep *)

Definition kept_string (before after : string) : Prop :=
  before = EmptyString ∨ after = before.

Definition kept_pointer {A : Type} (before after : option A) : Prop :=
  before = None ∨ after = before.

Definition kept_service (before after : option ServiceSpec) : Prop :=
  match before, after with
  | None, _ => True
  | Some b, Some a =>
    kept_pointer (Replicas b) (Replicas a) ∧ kept_pointer (Port b) (Port a) ∧
    kept_pointer (MembershipPort b) (MembershipPort a) ∧ HTTPPort a = HTTPPort b
  | Some _, None => False
  end.

Definition kept_services (before after : option TemporalServicesSpec) : Prop :=
  match before, after with
  | None, _ => True
  | Some b, Some a =>
    kept_service (Frontend b) (Frontend a) ∧ kept_service (History b) (History a) ∧
    kept_service (Matching b) (Matching a) ∧ kept_service (Worker b) (Worker a)
  | Some _, None => False
  end.

Definition kept_datastore (before after : DatastoreSpec) : Prop :=
  ds_Name after = ds_Name before ∧
  match SQL before, SQL after with
  | None, None => True
  | Some b, Some a => kept_string (ConnectProtocol b) (ConnectProtocol a)
  | _, _ => False
  end.

Definition kept_ui (before after : option TemporalUISpec) : Prop :=
  match before, after with
  | None, _ => True
  | Some b, Some a =>
    kept_string (ui_Version b) (ui_Version a) ∧ kept_string (ui_Image b) (ui_Image a)
  | Some _, None => False
  end.

Definition kept_admintools (before after : option TemporalAdminToolsSpec) : Prop :=
  match before, after with
  | None, _ => True
  | Some b, Some a => kept_string (admintools_Image b) (admintools_Image a)
  | Some _, None => False
  end.

Definition kept_durations (before after : option CertificatesDurationSpec) : Prop :=
  match before, after with
  | None, _ => True
  | Some b, Some a =>
    kept_pointer (RootCACertificate b) (RootCACertificate a) ∧
    kept_pointer (IntermediateCAsCertificates b) (IntermediateCAsCertificates a) ∧
    kept_pointer (ClientCertificates b) (ClientCertificates a) ∧
    kept_pointer (FrontendCertificate b) (FrontendCertificate a) ∧
    kept_pointer (InternodeCertificate b) (InternodeCertificate a)
  | Some _, None => False
  end.

Definition kept_mtls (before after : option MTLSSpec) : Prop :=
  match before, after with
  | None, None => True
  | Some b, Some a =>
    Provider a = Provider b ∧
    kept_pointer (RefreshInterval b) (RefreshInterval a) ∧
    kept_durations (CertificatesDuration b) (CertificatesDuration a)
  | _, _ => False
  end.

(** No field that was set is cleared or overridden. *)
Definition kept (before after : ClusterSpec) : Prop :=
  kept_string (Version before) (Version after) ∧
  kept_string (Image before) (Image after) ∧
  kept_services (Services before) (Services after) ∧
  Forall2 kept_datastore (Datastores before) (Datastores after) ∧
  DefaultStore (Persistence after) = DefaultStore (Persistence before) ∧
  kept_string (VisibilityStore (Persistence before)) (VisibilityStore (Persistence after)) ∧
  kept_ui (UI before) (UI after) ∧
  kept_admintools (AdminTools before) (AdminTools after) ∧
  kept_mtls (MTLS before) (MTLS after).

(** ** Sample inputs *)

Definition blank_spec : ClusterSpec :=
  {| Version := EmptyString; Image := EmptyString; Services := None; Datastores := [];
     Persistence := {| DefaultStore := EmptyString; VisibilityStore := EmptyString |};
     UI := None; AdminTools := None; MTLS := None |}.

(** A cluster as declared with nothing filled in, and not ready. *)
Definition blank_cluster : TemporalCluster :=
  {| cluster_Name := "prod"; cluster_Namespace := "temporal";
     cluster_Labels := ∅; cluster_Annotations := ∅;
     Spec := blank_spec; cluster_Conditions := ∅ |}.

Definition ready_cluster : TemporalCluster :=
  {| cluster_Name := "prod"; cluster_Namespace := "temporal";
     cluster_Labels := ∅; cluster_Annotations := ∅;
     Spec := blank_spec;
     cluster_Conditions :=
       {[ ReadyCondition := {| cond_Status := ConditionTrue;
                               cond_Reason := "ServicesReady";
                               cond_Message := EmptyString |} ]} |}.

(** Scenario A: the spec declares CustomerId and Amount, the server holds
    CustomerId and Legacy. *)
Definition scenarioA_namespace : TemporalNamespace :=
  {| ns_Name := "orders";
     DeletionTimestamp := None;
     Finalizers := [];
     AllowDeletion := true;
     CustomSearchAttributes := {[ "CustomerId" := "Keyword"; "Amount" := "Int" ]};
     ns_Conditions := ∅ |}.

Definition scenarioA_world : World :=
  {| attributes :=
       {[ "orders" := {[ "CustomerId" := INDEXED_VALUE_TYPE_KEYWORD;
                         "Legacy" := INDEXED_VALUE_TYPE_TEXT ]} ]};
     rpcs := []; dialed := 0; live := [] |}.

(** Scenario B: the spec declares Amount as Int, the server holds it as Text. *)
Definition scenarioB_namespace : TemporalNamespace :=
  {| ns_Name := "orders";
     DeletionTimestamp := None;
     Finalizers := [];
     AllowDeletion := true;
     CustomSearchAttributes := {[ "Amount" := "Int" ]};
     ns_Conditions := ∅ |}.

Definition scenarioB_world : World :=
  {| attributes := {[ "orders" := {[ "Amount" := INDEXED_VALUE_TYPE_TEXT ]} ]};
     rpcs := []; dialed := 0; live := [] |}.

(** A pass in which every call succeeds but, possibly, the register call. *)
Definition env_of (namespace : TemporalNamespace)
    (cluster : TemporalCluster + error) (register : option error) : Env :=
  {| env_namespace := inl namespace; env_helper := None;
     env_cluster := cluster; env_patch := None;
     env_namespace_client := None; env_client := None;
     env_register := register; env_update := None; env_delete := None;
     env_list := None; env_remove := None; env_add := None |}.

Definition scenarioA_env : Env := env_of scenarioA_namespace (inl ready_cluster) None.
Definition scenarioB_env : Env := env_of scenarioB_namespace (inl ready_cluster) None.

(** The referenced cluster exists and is not ready. *)
Definition waiting_env : Env := env_of scenarioA_namespace (inl blank_cluster) None.

(** Scenario D: the namespace is registered already. *)
Definition already_registered_env : Env :=
  env_of scenarioA_namespace (inl ready_cluster)
    (Some (New NamespaceAlreadyExists "Namespace already exists.")).

(** The register call fails for another reason. *)
Definition unreachable_env : Env :=
  env_of scenarioA_namespace (inl ready_cluster)
    (Some (New Generic "connection refused")).

(** Scenario E: a namespace under deletion that carries the finalizer, and
    whose cluster reference no longer resolves. *)
Definition deleting_namespace : TemporalNamespace :=
  {| ns_Name := "orders";
     DeletionTimestamp := Some 1;
     Finalizers := [deletionFinalizer];
     AllowDeletion := true;
     CustomSearchAttributes := ∅;
     ns_Conditions := ∅ |}.

Definition orphaned_env : Env :=
  env_of deleting_namespace
    (inr (New StatusNotFound "temporalclusters.temporal.io not found")) None.

Definition deleting_env : Env := env_of deleting_namespace (inl ready_cluster) None.

(** A namespace that got the finalizer while deletion was allowed, and whose
    spec no longer allows it. *)
Definition retained_namespace : TemporalNamespace :=
  {| ns_Name := "orders";
     DeletionTimestamp := None;
     Finalizers := [deletionFinalizer];
     AllowDeletion := false;
     CustomSearchAttributes := ∅;
     ns_Conditions := ∅ |}.

Definition retained_env : Env := env_of retained_namespace (inl ready_cluster) None.

(** A namespace under deletion whose spec never allowed deletion. *)
Definition unguarded_namespace : TemporalNamespace :=
  {| ns_Name := "orders";
     DeletionTimestamp := Some 1;
     Finalizers := [];
     AllowDeletion := false;
     CustomSearchAttributes := ∅;
     ns_Conditions := ∅ |}.

Definition unguarded_env : Env := env_of unguarded_namespace (inl ready_cluster) None.

(** A cluster whose frontend has its primary port, and one that has the
    HTTP port too. *)
Definition frontend_cluster (httpPort : option Z) : TemporalCluster :=
  {| cluster_Name := "prod"; cluster_Namespace := "temporal";
     cluster_Labels := ∅; cluster_Annotations := ∅;
     Spec :=
       {| Version := "1.17.4"; Image := EmptyString;
          Services := Some
            {| Frontend := Some {| Replicas := Some 1; Port := Some 7233;
                                   MembershipPort := Some 6933; HTTPPort := httpPort |};
               History := None; Matching := None; Worker := None |};
          Datastores := [];
          Persistence := {| DefaultStore := "default"; VisibilityStore := EmptyString |};
          UI := None; AdminTools := None; MTLS := None |};
     cluster_Conditions := ∅ |}.

Definition sample_helpers : Helpers :=
  {| ChildResourceName := λ cluster child, cluster_Name cluster +:+ "-" +:+ child;
     GetLabels := λ cluster service version labels,
       <["app.kubernetes.io/component" := service]> labels;
     GetAnnotations := λ name annotations, annotations;
     LabelsSelector := λ cluster service, {[ "app.kubernetes.io/component" := service ]};
     SetControllerReference := λ cluster meta,
       ({| meta_Name := meta_Name meta; meta_Namespace := meta_Namespace meta;
           meta_Labels := meta_Labels meta; meta_Annotations := meta_Annotations meta;
           meta_OwnerReferences :=
             [ {| owner_Kind := "TemporalCluster"; owner_Name := cluster_Name cluster;
                  owner_Controller := true |} ] |},
        None) |}.

Definition blank_service : Service :=
  {| service_Meta := {| meta_Name := "prod-frontend"; meta_Namespace := "temporal";
                        meta_Labels := ∅; meta_Annotations := ∅;
                        meta_OwnerReferences := [] |};
     service_Spec := {| service_Type := EmptyString; service_Selector := ∅;
                        service_Ports := [] |} |}.


(** ** Further specification vocabulary *)

(** Every byte of the string is ASCII. *)
Fixpoint all_ascii (s : string) : bool :=
  match s with
  | EmptyString => true
  | String c s' => GoStrings.is_ascii c && all_ascii s'
  end.

(** The second object has the name, the deletion timestamp and the spec of
    the first, and the finalizers of other controllers as the first has
    them. *)
Definition framed (before after : TemporalNamespace) : Prop :=
  ns_Name after = ns_Name before ∧
  DeletionTimestamp after = DeletionTimestamp before ∧
  AllowDeletion after = AllowDeletion before ∧
  CustomSearchAttributes after = CustomSearchAttributes before ∧
  filter (λ f, f ≠ deletionFinalizer) (Finalizers after) =
    filter (λ f, f ≠ deletionFinalizer) (Finalizers before).

(** ** Further sample inputs *)

(** A spec whose type string is not one of the table's. *)
Definition misdeclared_namespace : TemporalNamespace :=
  {| ns_Name := "orders";
     DeletionTimestamp := None;
     Finalizers := [];
     AllowDeletion := true;
     CustomSearchAttributes := {[ "CustomerId" := "Keyword"; "Amount" := "Integer" ]};
     ns_Conditions := ∅ |}.

Definition misdeclared_env : Env := env_of misdeclared_namespace (inl ready_cluster) None.

(** Scenario A with a server that refuses the removal, and with one that
    refuses the addition. *)
Definition refused_removal_env : Env :=
  {| env_namespace := inl scenarioA_namespace; env_helper := None;
     env_cluster := inl ready_cluster; env_patch := None;
     env_namespace_client := None; env_client := None;
     env_register := None; env_update := None; env_delete := None;
     env_list := None;
     env_remove := Some (New Generic "permission denied");
     env_add := None |}.


(** The delete request of a deletion pass is refused. *)
Definition refused_deletion_env : Env :=
  {| env_namespace := inl deleting_namespace; env_helper := None;
     env_cluster := inl ready_cluster; env_patch := None;
     env_namespace_client := None; env_client := None;
     env_register := None; env_update := None;
     env_delete := Some (New Generic "permission denied");
     env_list := None; env_remove := None; env_add := None |}.

(** A store with four namespaces that name a cluster: two refer to the
    cluster prod of the namespace temporal, one to a cluster prod of its own
    namespace, one to another cluster. *)
Definition sample_store : Store :=
  {| store_namespaces :=
       [ {| referring_Namespace := "temporal"; referring_Name := "orders";
            ClusterRef := {| ref_Name := "prod"; ref_Namespace := EmptyString |} |};
         {| referring_Namespace := "apps"; referring_Name := "local";
            ClusterRef := {| ref_Name := "prod"; ref_Namespace := EmptyString |} |};
         {| referring_Namespace := "apps"; referring_Name := "billing";
            ClusterRef := {| ref_Name := "prod"; ref_Namespace := "temporal" |} |};
         {| referring_Namespace := "temporal"; referring_Name := "staging-orders";
            ClusterRef := {| ref_Name := "staging"; ref_Namespace := EmptyString |} |} ];
     store_list := None |}.

Definition sample_headless_helpers : HeadlessHelpers :=
  {| HeadlessLabels := {[ "app.kubernetes.io/headless" := "true" ]};
     isBuilderEnabled := λ cluster service, true;
     MetricsPortName := FromString "metrics" |}.

(** A field of one of the cluster's services, through the pointers that
    lead to it: unset when any of them is nil. *)
Definition service_field {A : Type} (cluster : TemporalCluster)
    (pick : TemporalServicesSpec → option ServiceSpec)
    (field : ServiceSpec → option A) : option A :=
  (Services (Spec cluster) ≫= pick) ≫= field.

(** * Theorems *)

(** ** The shorthand table *)

(** Two keys that a string equals up to case are equal up to case. *)
Lemma rune_fold_eq_lower r k1 k2 :
  GoStrings.rune_fold_eq r k1 = true → GoStrings.rune_fold_eq r k2 = true →
  GoStrings.to_lower k1 = GoStrings.to_lower k2.
Proof.
  destruct r; simpl; try done; intros H1%Ascii.eqb_eq H2%Ascii.eqb_eq; congruence.
Qed.

Lemma EqualFold_lower s k1 k2 :
  GoStrings.EqualFold s k1 = true → GoStrings.EqualFold s k2 = true →
  GoStrings.lower k1 = GoStrings.lower k2.
Proof.
  revert s k2. induction k1 as [|c1 t1 IH]; intros s k2 H1 H2.
  - destruct s; [|done]. by destruct k2.
  - simpl in H1. destruct (GoStrings.decode_rune s) as [[r s']|] eqn:Hs; [|done].
    apply andb_true_iff in H1 as [Hr1 H1].
    destruct k2 as [|c2 t2].
    + destruct s; [done|]. done.
    + simpl in H2. rewrite Hs in H2. apply andb_true_iff in H2 as [Hr2 H2].
      simpl. by rewrite (rune_fold_eq_lower r c1 c2), (IH s' t2).
Qed.

(** So when the keys of a table differ up to case, at most one of them
    equals a given string up to case, and the order in which the loop of
    [searchAttributeTypeStringToEnum] meets them does not matter. *)
Lemma shorthand_lookup_elem table s k v :
  NoDup (GoStrings.lower <$> table.*1) →
  (k, v) ∈ table → GoStrings.EqualFold s k = true →
  shorthand_lookup table s = Some v.
Proof.
  induction table as [|[k' v'] rest IH]; intros Hnd Hin Hk; [by apply elem_of_nil in Hin|].
  rewrite !fmap_cons in Hnd. apply NoDup_cons in Hnd as [Hk' Hnd]. simpl in *.
  apply elem_of_cons in Hin as [[= <- <-]|Hin]; [by rewrite Hk|].
  destruct (GoStrings.EqualFold s k') eqn:Hsk'; [|by apply IH].
  exfalso. apply Hk'. rewrite (EqualFold_lower s k' k Hsk' Hk).
  apply list_elem_of_fmap. exists k. split; [done|].
  apply list_elem_of_fmap. by exists (k, v).
Qed.

Lemma shorthand_lookup_Some table s v :
  shorthand_lookup table s = Some v →
  ∃ k, (k, v) ∈ table ∧ GoStrings.EqualFold s k = true.
Proof.
  induction table as [|[k' v'] rest IH]; [done|]. simpl.
  destruct (GoStrings.EqualFold s k') eqn:Hsk'.
  - intros [= <-]. exists k'. split; [apply list_elem_of_here|done].
  - intros (k & Hin & Hk)%IH. exists k. split; [by apply list_elem_of_further|done].
Qed.

Lemma shorthand_lookup_order table table' s :
  NoDup (GoStrings.lower <$> table.*1) → table ≡ₚ table' →
  shorthand_lookup table' s = shorthand_lookup table s.
Proof.
  intros Hnd Hperm.
  assert (Hnd' : NoDup (GoStrings.lower <$> table'.*1)) by by rewrite <- Hperm.
  destruct (shorthand_lookup table s) as [v|] eqn:Hlook.
  - apply shorthand_lookup_Some in Hlook as (k & Hin & Hk).
    rewrite Hperm in Hin. by apply shorthand_lookup_elem with k.
  - destruct (shorthand_lookup table' s) as [v|] eqn:Hlook'; [|done].
    apply shorthand_lookup_Some in Hlook' as (k & Hin & Hk).
    rewrite <- Hperm in Hin.
    by rewrite (shorthand_lookup_elem table s k v Hnd Hin Hk) in Hlook.
Qed.

Lemma IndexedValueType_shorthandValue_keys :
  NoDup (GoStrings.lower <$> IndexedValueType_shorthandValue.*1).
Proof. apply (bool_decide_unpack _). by vm_compute. Qed.

(** The lookup is case-insensitive, and the Kelvin sign folds to [k]. *)
Example searchAttributeTypeStringToEnum_examples :
  searchAttributeTypeStringToEnum "keywordlist" = (INDEXED_VALUE_TYPE_KEYWORD_LIST, None) ∧
  searchAttributeTypeStringToEnum "DATETIME" = (INDEXED_VALUE_TYPE_DATETIME, None) ∧
  searchAttributeTypeStringToEnum
    (String (ascii_of_nat 226) (String (ascii_of_nat 132) (String (ascii_of_nat 170)
       "eyword"))) = (INDEXED_VALUE_TYPE_KEYWORD, None) ∧
  is_Some (searchAttributeTypeStringToEnum "String").2 ∧
  is_Some (searchAttributeTypeStringToEnum "Keyword ").2.
Proof. vm_compute. by eauto 10. Qed.

(** ** The three loops of the attribute reconciler *)

Lemma translate_loop_total entries :
  Forall (λ p, (searchAttributeTypeStringToEnum p.2).2 = None) entries →
  ∀ acc, ∃ M, translate_loop entries acc = inl M.
Proof.
  induction entries as [|[k s] rest IH]; intros Hall acc; [by eexists|].
  apply Forall_cons in Hall as [Hs Hall]. simpl in Hs. simpl.
  destruct (searchAttributeTypeStringToEnum s) as [t e]. simpl in Hs. subst e.
  apply IH, Hall.
Qed.

(** When the loop runs to its end, each name maps to the type its string
    declares; names are distinct, so the order of iteration plays no role. *)
Lemma translate_loop_inl entries :
  NoDup entries.*1 →
  ∀ acc M, translate_loop entries acc = inl M →
    ∀ n, M !! n =
         match (list_to_map entries : gmap string string) !! n with
         | Some s => Some (parse_type s)
         | None => acc !! n
         end.
Proof.
  induction entries as [|[k s] rest IH]; intros Hnd acc M HM n.
  - simpl in *. injection HM as <-. by rewrite lookup_empty.
  - rewrite fmap_cons in Hnd. apply NoDup_cons in Hnd as [Hk Hnd].
    simpl in HM, Hk. unfold parse_type.
    destruct (searchAttributeTypeStringToEnum s) as [t [e|]] eqn:Hs; [done|].
    rewrite (IH Hnd _ _ HM n). simpl.
    destruct (decide (k = n)) as [->|Hne].
    + by rewrite (not_elem_of_list_to_map_1 rest n Hk), !lookup_insert_eq, Hs.
    + by rewrite !lookup_insert_ne by done.
Qed.

(** Whatever order the range over the spec's map takes. *)
Lemma translate_loop_spec entries declared :
  entries ≡ₚ map_to_list declared →
  resolves declared →
  translate_loop entries ∅ = inl (parse_type <$> declared).
Proof.
  intros Hperm Hres.
  assert (Hnd : NoDup entries.*1)
    by (rewrite Hperm; apply NoDup_fst_map_to_list).
  destruct (translate_loop_total entries) with (acc := (∅ : gmap string IndexedValueType))
    as [M HM].
  { apply Forall_forall. intros [n s] Hin. rewrite Hperm in Hin.
    apply elem_of_map_to_list in Hin. exact (Hres n s Hin). }
  rewrite HM. f_equal. apply map_eq. intros n.
  rewrite (translate_loop_inl _ Hnd _ _ HM n).
  rewrite (list_to_map_proper _ _ Hnd Hperm).
  rewrite list_to_map_to_list, lookup_fmap, lookup_empty.
  by destruct (declared !! n).
Qed.

Lemma remove_loop_filter entries M acc :
  remove_loop entries M acc =
  (acc ++ (filter (λ p, M !! p.1 = None) entries).*1)%list.
Proof.
  revert acc. induction entries as [|[n t] rest IH]; intros acc; simpl.
  - by rewrite app_nil_r.
  - rewrite IH, filter_cons. simpl.
    destruct (M !! n) eqn:Hn.
    + by rewrite decide_False by done.
    + rewrite decide_True by done. by rewrite fmap_cons, <- app_assoc.
Qed.

(** Whatever order the range over the server's map takes. *)
Lemma remove_loop_spec entries (R M : gmap string IndexedValueType) :
  entries ≡ₚ map_to_list R →
  let names := remove_loop entries M [] in
  NoDup names ∧ ∀ n, n ∈ names ↔ n ∈ dom R ∖ dom M.
Proof.
  intros Hperm. simpl. rewrite remove_loop_filter, app_nil_l. split.
  - apply NoDup_fmap_fst.
    + intros n t1 t2 H1 H2.
      apply list_elem_of_filter in H1 as [_ H1], H2 as [_ H2].
      rewrite Hperm in H1, H2.
      apply elem_of_map_to_list in H1, H2. congruence.
    + apply NoDup_filter. rewrite Hperm. apply NoDup_map_to_list.
  - intros n. rewrite elem_of_difference, !elem_of_dom, list_elem_of_fmap. split.
    + intros ([n' t] & -> & Hin). apply list_elem_of_filter in Hin as [Hnone Hin].
      rewrite Hperm in Hin.
      apply elem_of_map_to_list in Hin. simpl in *. split; [by eexists|].
      rewrite Hnone. by intros [? ?].
    + intros [[t Ht] Hnone]. exists (n, t). split; [done|].
      apply list_elem_of_filter. split.
      * simpl. by apply eq_None_not_Some.
      * rewrite Hperm. by apply elem_of_map_to_list.
Qed.

Lemma add_loop_lookup (R : gmap string IndexedValueType) entries :
  NoDup entries.*1 →
  Forall (λ p, R !! p.1 = None ∨ R !! p.1 = Some p.2) entries →
  ∀ acc, ∃ A,
    add_loop entries R acc = inl A ∧
    ∀ n, A !! n =
         match (list_to_map entries : gmap string IndexedValueType) !! n with
         | Some t => match R !! n with None => Some t | Some _ => acc !! n end
         | None => acc !! n
         end.
Proof.
  induction entries as [|[k t] rest IH]; intros Hnd Hall acc.
  - exists acc. split; [done|]. intros n. simpl. by rewrite lookup_empty.
  - rewrite fmap_cons in Hnd. apply NoDup_cons in Hnd as [Hk Hnd].
    apply Forall_cons in Hall as [Ht Hall]. simpl in Ht, Hk.
    assert (Hrest : list_to_map rest !! k = (None : option IndexedValueType))
      by by apply not_elem_of_list_to_map_1.
    simpl. destruct (R !! k) as [t'|] eqn:HRk.
    + destruct Ht as [?|[= ->]]; [done|].
      rewrite decide_False by (intros Hne; by apply Hne).
      destruct (IH Hnd Hall acc) as (A & HA & Hlook).
      exists A. split; [done|]. intros n. rewrite Hlook.
      destruct (decide (k = n)) as [->|Hne].
      * by rewrite lookup_insert_eq, Hrest, HRk.
      * by rewrite lookup_insert_ne by done.
    + destruct (IH Hnd Hall (<[k := t]> acc)) as (A & HA & Hlook).
      exists A. split; [done|]. intros n. rewrite Hlook.
      destruct (decide (k = n)) as [->|Hne].
      * by rewrite !lookup_insert_eq, Hrest, HRk.
      * rewrite !lookup_insert_ne by done. done.
Qed.

(** Whatever order the range over the translated map takes. *)
Lemma add_loop_spec entries (M R : gmap string IndexedValueType) :
  entries ≡ₚ map_to_list M →
  compatible M R →
  add_loop entries R ∅ = inl (M ∖ R).
Proof.
  intros Hperm Hcompat.
  assert (Hnd : NoDup entries.*1)
    by (rewrite Hperm; apply NoDup_fst_map_to_list).
  destruct (add_loop_lookup R entries) with (acc := (∅ : gmap string IndexedValueType))
    as (A & HA & Hlook).
  - done.
  - apply Forall_forall. intros [n t] Hin. rewrite Hperm in Hin.
    apply elem_of_map_to_list in Hin. exact (Hcompat n t Hin).
  - rewrite HA. f_equal. apply map_eq. intros n.
    rewrite Hlook, (list_to_map_proper _ _ Hnd Hperm).
    rewrite list_to_map_to_list, lookup_difference, lookup_empty.
    destruct (M !! n), (R !! n); done.
Qed.

(** A name the server holds under another type stops the loop, wherever it
    stands in the iteration. *)
Lemma add_loop_conflict (R : gmap string IndexedValueType) entries n t t' :
  (n, t) ∈ entries → R !! n = Some t' → t ≠ t' →
  ∀ acc, ∃ err, add_loop entries R acc = inr err.
Proof.
  intros Hin HR Hne. induction entries as [|[k u] rest IH]; intros acc.
  - by apply elem_of_nil in Hin.
  - simpl. destruct (R !! k) as [u'|] eqn:HRk.
    + destruct (decide (u ≠ u')) as [?|Heq]; [by eexists|].
      apply elem_of_cons in Hin as [[= -> ->]|Hin]; [|by apply IH].
      rewrite HR in HRk. injection HRk as ->. exfalso. apply Heq. done.
    + apply elem_of_cons in Hin as [[= -> ->]|Hin]; [congruence|by apply IH].
Qed.

Lemma foldr_delete_lookup (m : gmap string IndexedValueType) names n :
  foldr delete m names !! n = if decide (n ∈ names) then None else m !! n.
Proof.
  induction names as [|k rest IH].
  - destruct (decide (n ∈ [])) as [Hin|]; [by apply elem_of_nil in Hin|done].
  - change (foldr delete m (k :: rest)) with (delete k (foldr delete m rest)).
    destruct (decide (k = n)) as [->|Hne].
    + rewrite lookup_delete_eq.
      destruct (decide (n ∈ n :: rest)) as [|Hno]; [done|].
      exfalso. apply Hno, list_elem_of_here.
    + rewrite lookup_delete_ne by done. rewrite IH.
      destruct (decide (n ∈ rest)) as [Hin|Hno], (decide (n ∈ k :: rest)) as [Hin'|Hno'];
        try done.
      * exfalso. by apply Hno', list_elem_of_further.
      * apply elem_of_cons in Hin' as [?|?]; congruence.
Qed.

(** The mapping that the two requests leave behind, sent or skipped. *)
Lemma converged_mapping (M R : gmap string IndexedValueType) names :
  compatible M R →
  (∀ n, n ∈ names ↔ n ∈ dom R ∖ dom M) →
  (M ∖ R) ∪ foldr delete R names = M.
Proof.
  intros Hcompat Hnames. apply map_eq. intros n.
  rewrite lookup_union, lookup_difference, foldr_delete_lookup.
  specialize (Hnames n). rewrite elem_of_difference, !elem_of_dom in Hnames.
  destruct (M !! n) as [t|] eqn:HM, (R !! n) as [t'|] eqn:HR.
  - rewrite decide_False.
    + assert (t' = t) as -> by (destruct (Hcompat n t HM); congruence). done.
    + rewrite Hnames. intros [_ Hno]. apply Hno. by eexists.
  - by destruct (decide (n ∈ names)).
  - rewrite decide_True; [done|]. apply Hnames. split; [by eexists|].
    by intros [? ?].
  - by destruct (decide (n ∈ names)).
Qed.

(** ** Attribute reconciliation *)

(** C1: when every type string of the spec resolves (M is the mapping they
    declare) and no name that M shares with the server's mapping R has
    another type there, a run in which the calls succeed returns no error,
    and every run that returns no error has sent, after the list request, a
    removal request for exactly the names of R that M lacks (none when
    there is no such name), then an addition request for exactly the pairs
    of M whose name R lacks (none when there is no such pair), has named no
    shared name in either request, and leaves M as the server's mapping. *)
Theorem reconcileCustomSearchAttributes_converges env namespace cluster w :
  let ns := GetName namespace in
  let M := parse_type <$> CustomSearchAttributes namespace in
  let R := server_attributes w ns in
  resolves (CustomSearchAttributes namespace) →
  compatible M R →
  (env_client env = None → env_list env = None →
   env_remove env = None → env_add env = None →
   (reconcileCustomSearchAttributes env namespace cluster w).1 = None) ∧
  ∀ w', reconcileCustomSearchAttributes env namespace cluster w = (None, w') →
    ∃ names,
      NoDup names ∧
      (∀ n, n ∈ names ↔ n ∈ dom R ∖ dom M) ∧
      rpcs w' =
        (rpcs w ++ [ListSearchAttributes ns]
         ++ (if decide (names = []) then [] else [RemoveSearchAttributes ns names])
         ++ (if decide (M ∖ R = ∅) then [] else [AddSearchAttributes ns (M ∖ R)]))%list ∧
      (∀ n, n ∈ dom M → n ∈ dom R → (n ∉ names) ∧ (n ∉ dom (M ∖ R))) ∧
      server_attributes w' ns = M.
Proof.
  intros ns M R Hres Hcompat.
  destruct (remove_loop_spec (map_to_list R) R M) as [Hnd Hnames]; [done|].
  set (names := remove_loop (map_to_list R) M []) in *.
  pose proof (converged_mapping M R names Hcompat Hnames) as Hconv.
  assert (Hshared : ∀ n, n ∈ dom M → n ∈ dom R → (n ∉ names) ∧ (n ∉ dom (M ∖ R))).
  { intros n HnM HnR. split.
    - rewrite Hnames, elem_of_difference. tauto.
    - rewrite elem_of_dom, lookup_difference.
      apply elem_of_dom in HnR as [t ->]. by intros [? ?]. }
  assert (Hlen : (0 <? length names)%nat = bool_decide (names ≠ [])).
  { by destruct names. }
  assert (Hsize : (0 <? size (M ∖ R))%nat = bool_decide (M ∖ R ≠ ∅)).
  { destruct (decide (M ∖ R = ∅)) as [Hempty|Hne].
    - rewrite Hempty, map_size_empty. symmetry. apply bool_decide_eq_false_2. tauto.
    - rewrite bool_decide_eq_true_2 by done. apply Nat.ltb_lt.
      apply map_size_non_empty_iff in Hne. lia. }
  unfold reconcileCustomSearchAttributes, GetClusterClient, dial.
  destruct (env_client env) as [e|]; [split; [done|by intros w' [=]]|].
  unfold OperatorService_ListSearchAttributes, request.
  destruct (env_list env) as [e|]; [split; [done|by intros w' [=]]|].
  rewrite (translate_loop_spec _ _ (reflexivity _) Hres).
  change (server_attributes _ (GetName namespace)) with R.
  fold M. rewrite (add_loop_spec _ M R (reflexivity _) Hcompat).
  fold names. fold ns. rewrite Hlen, Hsize.
  unfold OperatorService_RemoveSearchAttributes, OperatorService_AddSearchAttributes, request.
  cbn [attributes rpcs dialed live id].
  assert (HR : default ∅ (attributes w !! ns) = R) by done.
  destruct (decide (names = [])) as [Hn|Hn], (decide (M ∖ R = ∅)) as [Ha|Ha].
  - rewrite bool_decide_eq_false_2 by tauto. rewrite bool_decide_eq_false_2 by tauto.
    split; [done|]. intros w' [= <-]. exists names.
    destruct (decide (names = [])) as [_|?]; [|done].
    repeat split; try done; try apply Hnames; try apply Hshared; try done.
    unfold server_attributes. cbn [attributes]. rewrite HR.
    rewrite Ha, Hn, (left_id_L ∅ (∪)) in Hconv. exact Hconv.
  - rewrite bool_decide_eq_false_2 by tauto. rewrite bool_decide_eq_true_2 by done.
    destruct (env_add env) as [e|]; (split; [done|]); intros w' [= <-].
    exists names.
    destruct (decide (names = [])) as [_|?]; [|done].
    repeat split; try done; try apply Hnames; try apply Hshared; try done.
    + cbn [rpcs]. by rewrite <- app_assoc.
    + unfold server_attributes. cbn [attributes]. rewrite lookup_insert_eq, HR.
      rewrite Hn in Hconv. exact Hconv.
  - rewrite bool_decide_eq_true_2 by done. rewrite bool_decide_eq_false_2 by tauto.
    destruct (env_remove env) as [e|]; (split; [done|]); intros w' [= <-].
    exists names.
    destruct (decide (names = [])) as [?|_]; [done|].
    repeat split; try done; try apply Hnames; try apply Hshared; try done.
    + cbn [rpcs]. by rewrite <- !app_assoc.
    + unfold server_attributes. cbn [attributes]. rewrite lookup_insert_eq, HR.
      rewrite Ha, (left_id_L ∅ (∪)) in Hconv. exact Hconv.
  - rewrite bool_decide_eq_true_2 by done. rewrite bool_decide_eq_true_2 by done.
    destruct (env_remove env) as [e|]; [split; [done|by intros w' [=]]|].
    cbn [attributes rpcs dialed live].
    destruct (env_add env) as [e|]; (split; [done|]); intros w' [= <-].
    exists names.
    destruct (decide (names = [])) as [?|_]; [done|].
    repeat split; try done; try apply Hnames; try apply Hshared; try done.
    + cbn [rpcs]. by rewrite <- !app_assoc.
    + unfold server_attributes. cbn [attributes].
      rewrite !lookup_insert_eq, HR. exact Hconv.
Qed.

(** The convergence theorem on Scenario A, with every call succeeding. *)
Lemma reconcileCustomSearchAttributes_converges_witness :
  resolves (CustomSearchAttributes scenarioA_namespace) ∧
  compatible (parse_type <$> CustomSearchAttributes scenarioA_namespace)
    (server_attributes scenarioA_world (GetName scenarioA_namespace)) ∧
  (reconcileCustomSearchAttributes scenarioA_env scenarioA_namespace ready_cluster
     scenarioA_world).1 = None.
Proof.
  assert (Hres : resolves (CustomSearchAttributes scenarioA_namespace))
    by (apply (bool_decide_unpack _); vm_compute; exact I).
  assert (Hcompat :
            compatible (parse_type <$> CustomSearchAttributes scenarioA_namespace)
              (server_attributes scenarioA_world (GetName scenarioA_namespace)))
    by (apply (bool_decide_unpack _); vm_compute; exact I).
  split; [exact Hres|split; [exact Hcompat|]].
  apply (proj1 (reconcileCustomSearchAttributes_converges scenarioA_env
                  scenarioA_namespace ready_cluster scenarioA_world Hres Hcompat));
    reflexivity.
Defined.

(** Scenario A, run: the pass removes Legacy, adds Amount, and the server
    ends with the spec's mapping. *)
Example scenarioA_run :
  let run := reconcileCustomSearchAttributes scenarioA_env scenarioA_namespace
               ready_cluster scenarioA_world in
  run.1 = None ∧
  rpcs run.2 =
    [ ListSearchAttributes "orders";
      RemoveSearchAttributes "orders" ["Legacy"];
      AddSearchAttributes "orders" {[ "Amount" := INDEXED_VALUE_TYPE_INT ]} ] ∧
  server_attributes run.2 "orders" =
    {[ "CustomerId" := INDEXED_VALUE_TYPE_KEYWORD; "Amount" := INDEXED_VALUE_TYPE_INT ]}.
Proof. by vm_compute. Qed.

(** C2: when a name of the spec is held by the server under a type other
    than the one the spec's string declares, the run returns an error, the
    server's attributes are as before, and the only request the run can
    have sent is the list request: no removal, no addition. *)
Theorem reconcileCustomSearchAttributes_conflict env namespace cluster w n s t :
  let ns := GetName namespace in
  let run := reconcileCustomSearchAttributes env namespace cluster w in
  CustomSearchAttributes namespace !! n = Some s →
  server_attributes w ns !! n = Some t →
  parse_type s ≠ t →
  is_Some run.1 ∧
  attributes run.2 = attributes w ∧
  (rpcs run.2 = rpcs w ∨ rpcs run.2 = (rpcs w ++ [ListSearchAttributes ns])%list).
Proof.
  intros ns run HS HR Hne. subst run.
  unfold reconcileCustomSearchAttributes, GetClusterClient, dial.
  destruct (env_client env) as [e|]; [by eauto|].
  unfold OperatorService_ListSearchAttributes, request.
  destruct (env_list env) as [e|]; [by eauto|].
  change (server_attributes _ (GetName namespace)) with (server_attributes w ns).
  destruct (translate_loop _ ∅) as [M|e] eqn:HM; [|by eauto].
  assert (HMn : M !! n = Some (parse_type s)).
  { rewrite (translate_loop_inl _ (NoDup_fst_map_to_list _) _ _ HM n).
    by rewrite list_to_map_to_list, HS. }
  destruct (add_loop_conflict (server_attributes w ns) (map_to_list M) n _ t
              (proj2 (elem_of_map_to_list _ _ _) HMn) HR Hne ∅) as [e ->].
  by eauto.
Qed.

(** The conflict theorem on Scenario B. *)
Lemma reconcileCustomSearchAttributes_conflict_witness :
  let run := reconcileCustomSearchAttributes scenarioB_env scenarioB_namespace
               ready_cluster scenarioB_world in
  CustomSearchAttributes scenarioB_namespace !! "Amount" = Some "Int" ∧
  server_attributes scenarioB_world "orders" !! "Amount" = Some INDEXED_VALUE_TYPE_TEXT ∧
  parse_type "Int" ≠ INDEXED_VALUE_TYPE_TEXT ∧
  is_Some run.1 ∧
  attributes run.2 = attributes scenarioB_world ∧
  (rpcs run.2 = rpcs scenarioB_world ∨
   rpcs run.2 = (rpcs scenarioB_world ++ [ListSearchAttributes "orders"])%list).
Proof.
  assert (Hspec : CustomSearchAttributes scenarioB_namespace !! "Amount" = Some "Int")
    by (vm_compute; reflexivity).
  assert (Hserver : server_attributes scenarioB_world (GetName scenarioB_namespace)
                      !! "Amount" = Some INDEXED_VALUE_TYPE_TEXT)
    by (vm_compute; reflexivity).
  assert (Hne : parse_type "Int" ≠ INDEXED_VALUE_TYPE_TEXT)
    by (vm_compute; discriminate).
  split; [exact Hspec|split; [exact Hserver|split; [exact Hne|]]].
  exact (reconcileCustomSearchAttributes_conflict scenarioB_env scenarioB_namespace
           ready_cluster scenarioB_world "Amount" "Int" INDEXED_VALUE_TYPE_TEXT
           Hspec Hserver Hne).
Defined.

(** ** The log of requests *)

(** The requests [reconcileCustomSearchAttributes] adds to the log, and all
    else it does, do not depend on the requests logged before it. *)
Lemma reconcileCustomSearchAttributes_log env namespace cluster w :
  ∃ err added w',
    ∀ calls,
      reconcileCustomSearchAttributes env namespace cluster (set_rpcs w calls) =
      (err, set_rpcs w' (calls ++ added)).
Proof.
  unfold reconcileCustomSearchAttributes, GetClusterClient, dial.
  destruct (env_client env) as [e|].
  { exists (Some e), [], w. intros calls. by rewrite app_nil_r. }
  unfold OperatorService_ListSearchAttributes, request.
  change (server_attributes _ (GetName namespace))
    with (server_attributes w (GetName namespace)).
  set (ns := GetName namespace).
  destruct (env_list env) as [e|].
  { eexists (Some e), [_], (Build_World _ [] _ _). intros calls.
    unfold set_rpcs. cbn [attributes rpcs dialed live id]. reflexivity. }
  destruct (translate_loop _ ∅) as [M|e].
  2: { eexists (Some e), [_], (Build_World _ [] _ _). intros calls.
       unfold set_rpcs. cbn [attributes rpcs dialed live id]. reflexivity. }
  destruct (add_loop _ _ ∅) as [A|e].
  2: { eexists (Some e), [_], (Build_World _ [] _ _). intros calls.
       unfold set_rpcs. cbn [attributes rpcs dialed live id]. reflexivity. }
  unfold OperatorService_RemoveSearchAttributes, OperatorService_AddSearchAttributes, request.
  destruct (0 <? length _)%nat, (0 <? size A)%nat,
    (env_remove env) as [e1|], (env_add env) as [e2|];
    first
      [ by eexists _, [_], (Build_World _ [] _ _); intros calls;
           unfold set_rpcs; cbn [attributes rpcs dialed live id]
      | by eexists _, [_; _], (Build_World _ [] _ _); intros calls;
           unfold set_rpcs; cbn [attributes rpcs dialed live id]; rewrite <- !app_assoc
      | by eexists _, [_; _; _], (Build_World _ [] _ _); intros calls;
           unfold set_rpcs; cbn [attributes rpcs dialed live id]; rewrite <- !app_assoc ].
Qed.

(** The connection [reconcileCustomSearchAttributes] dials is open when it
    returns, on every path. *)
Lemma reconcileCustomSearchAttributes_live env namespace cluster w :
  env_client env = None →
  live (reconcileCustomSearchAttributes env namespace cluster w).2 =
    (live w ++ [dialed w])%list ∧
  dialed (reconcileCustomSearchAttributes env namespace cluster w).2 = S (dialed w).
Proof.
  intros Hdial.
  unfold reconcileCustomSearchAttributes, GetClusterClient, dial. rewrite Hdial.
  unfold OperatorService_ListSearchAttributes, request.
  destruct (env_list env) as [e|]; [done|].
  destruct (translate_loop _ ∅) as [M|e]; [|done].
  destruct (add_loop _ _ ∅) as [A|e]; [|done].
  unfold OperatorService_RemoveSearchAttributes, OperatorService_AddSearchAttributes, request.
  by destruct (0 <? length _)%nat, (0 <? size A)%nat,
       (env_remove env) as [e1|], (env_add env) as [e2|].
Qed.

(** ** Dependency gating *)

(** C3: when the referenced cluster is not both found and ready, the pass
    leaves the remote world as it was: no request is sent and no connection
    is dialed.  A cluster that is found and not ready ends the pass with a
    requeue after ten seconds and the object untouched; a cluster that is
    not found while the object is under deletion ends it with the finalizer
    dropped, again without any remote call. *)
Theorem Reconcile_dependency_gating env w :
  (∀ cluster, env_cluster env = inl cluster → IsReady cluster = false) →
  pass_world (Reconcile env w) = w ∧
  (∀ namespace cluster,
     env_namespace env = inl namespace → env_helper env = None →
     env_cluster env = inl cluster →
     pass_object (Reconcile env w) = Some namespace ∧
     pass_result (Reconcile env w) = {| Requeue := false; RequeueAfter := 10 * Second |}) ∧
  (∀ namespace err,
     env_namespace env = inl namespace → env_helper env = None →
     env_cluster env = inr err → IsNotFound err = true →
     Time_IsZero (DeletionTimestamp namespace) = false →
     pass_object (Reconcile env w) = Some (RemoveFinalizer namespace deletionFinalizer) ∧
     pass_result (Reconcile env w) = Result_zero).
Proof.
  intros Hgate. unfold Reconcile, Reconcile_body. split; [|split].
  - destruct (env_namespace env) as [namespace|e]; [|by destruct (IsNotFound e)].
    destruct (env_helper env); [done|].
    destruct (env_cluster env) as [cluster|e].
    + by rewrite (Hgate cluster eq_refl).
    + unfold handleError, handleErrorWithRequeue.
      by destruct (IsNotFound e && negb (Time_IsZero (DeletionTimestamp namespace))).
  - intros namespace cluster Hns Hhelper Hcluster.
    by rewrite Hns, Hhelper, Hcluster, (Hgate cluster Hcluster).
  - intros namespace err Hns Hhelper Hcluster Habsent Hts.
    by rewrite Hns, Hhelper, Hcluster, Habsent, Hts.
Qed.

(** The gating theorem on a pass whose cluster exists and is not ready. *)
Lemma Reconcile_dependency_gating_witness :
  IsReady blank_cluster = false ∧
  pass_world (Reconcile waiting_env scenarioA_world) = scenarioA_world ∧
  pass_result (Reconcile waiting_env scenarioA_world) =
    {| Requeue := false; RequeueAfter := 10 * Second |}.
Proof.
  assert (Hgate : ∀ cluster, env_cluster waiting_env = inl cluster →
                             IsReady cluster = false)
    by (intros cluster [= <-]; reflexivity).
  split; [reflexivity|].
  split.
  - exact (proj1 (Reconcile_dependency_gating waiting_env scenarioA_world Hgate)).
  - exact (proj2 (proj1 (proj2 (Reconcile_dependency_gating waiting_env scenarioA_world
                                  Hgate))
                    scenarioA_namespace blank_cluster eq_refl eq_refl eq_refl)).
Defined.

(** Scenario E: the cluster reference no longer resolves while the object is
    under deletion; the finalizer goes and the server hears nothing. *)
Example scenarioE_run :
  let p := Reconcile orphaned_env scenarioA_world in
  pass_world p = scenarioA_world ∧
  Finalizers <$> pass_object p = Some [] ∧
  (pass_result p, pass_err p) = (Result_zero, None).
Proof. by vm_compute. Qed.

(** ** The finalizer *)

Lemma has_finalizer_Finalizers a b :
  Finalizers a = Finalizers b → has_finalizer a = has_finalizer b.
Proof. unfold has_finalizer, ContainsFinalizer. by intros ->. Qed.

Lemma has_finalizer_AddFinalizer namespace :
  has_finalizer (AddFinalizer namespace deletionFinalizer) = true.
Proof.
  unfold AddFinalizer. destruct (ContainsFinalizer _ _) eqn:Hc; [done|].
  apply bool_decide_eq_true_2. cbn [Finalizers set_Finalizers].
  apply elem_of_app. right. apply list_elem_of_here.
Qed.

Lemma has_finalizer_RemoveFinalizer namespace :
  has_finalizer (RemoveFinalizer namespace deletionFinalizer) = false.
Proof.
  apply bool_decide_eq_false_2. cbn [Finalizers RemoveFinalizer set_Finalizers].
  rewrite list_elem_of_filter. by intros [? _].
Qed.

Lemma has_finalizer_ensureFinalizer namespace :
  has_finalizer (ensureFinalizer namespace) =
  has_finalizer namespace
  || (Time_IsZero (DeletionTimestamp namespace) && AllowDeletion namespace).
Proof.
  unfold ensureFinalizer.
  destruct (Time_IsZero _ && AllowDeletion _).
  - by rewrite has_finalizer_AddFinalizer, orb_true_r.
  - by rewrite orb_false_r.
Qed.

Lemma Reconcile_withClient_Finalizers env namespace cluster client w :
  Finalizers (Reconcile_withClient env namespace cluster client w).1.1 =
  Finalizers namespace.
Proof.
  unfold Reconcile_withClient, Register, Update, request.
  destruct (env_register env) as [e|].
  - destruct (As NamespaceAlreadyExists e); [|done]. cbn [negb].
    destruct (env_update env); [done|].
    by destruct (reconcileCustomSearchAttributes _ _ _ _) as [[?|] ?].
  - by destruct (reconcileCustomSearchAttributes _ _ _ _) as [[?|] ?].
Qed.

Lemma has_finalizer_handleError namespace reason err :
  has_finalizer (handleError namespace reason err).1 = has_finalizer namespace.
Proof. done. Qed.

Lemma has_finalizer_SetTemporalNamespaceReconcileError namespace status reason message :
  has_finalizer (SetTemporalNamespaceReconcileError namespace status reason message) =
  has_finalizer namespace.
Proof. done. Qed.

(** C4, as amended: [ensureFinalizer] leaves the finalizer present exactly
    when it was present or deletion is allowed with no deletion timestamp
    set, and a pass that reaches it (cluster ready, no deletion pending)
    ends with the finalizer present exactly then.  A pass adds the
    finalizer only when deletion is allowed and no deletion timestamp is
    set.  A pass removes it only under a deletion timestamp, and then
    either on the finalizer-drop path (the cluster is not found, and no
    remote call is made) or after the delete request, which is the one
    request of the pass and has succeeded or reported not-found. *)
Theorem finalizer_lifecycle env w namespace :
  env_namespace env = inl namespace → env_helper env = None →
  ∃ namespace',
    pass_object (Reconcile env w) = Some namespace' ∧
    has_finalizer (ensureFinalizer namespace) =
      has_finalizer namespace
      || (Time_IsZero (DeletionTimestamp namespace) && AllowDeletion namespace) ∧
    (∀ cluster, env_cluster env = inl cluster → IsReady cluster = true →
       Time_IsZero (DeletionTimestamp namespace) = true →
       has_finalizer namespace' = has_finalizer namespace || AllowDeletion namespace) ∧
    (has_finalizer namespace = false → has_finalizer namespace' = true →
       AllowDeletion namespace = true ∧
       Time_IsZero (DeletionTimestamp namespace) = true) ∧
    (has_finalizer namespace = true → has_finalizer namespace' = false →
       Time_IsZero (DeletionTimestamp namespace) = false ∧
       ((∃ err, env_cluster env = inr err ∧ IsNotFound err = true ∧
                pass_world (Reconcile env w) = w) ∨
        (∃ cluster, env_cluster env = inl cluster ∧ IsReady cluster = true ∧
           rpcs (pass_world (Reconcile env w)) =
             (rpcs w ++ [DeleteNamespace (GetName namespace)])%list ∧
           (env_delete env = None ∨
            ∃ e, env_delete env = Some e ∧ As NamespaceNotFound e = true)))).
Proof.
  intros Hns Hhelper. unfold Reconcile. rewrite Hns, Hhelper.
  unfold Reconcile_body.
  pose proof (has_finalizer_ensureFinalizer namespace) as Hensure.
  destruct (env_cluster env) as [cluster|e] eqn:Hc.
  - destruct (IsReady cluster) eqn:Hready; cbn [negb].
    + destruct (Time_IsZero (DeletionTimestamp namespace)) eqn:Hts; cbn [negb].
      * (* the finalizer is ensured, and nothing after it touches the finalizers *)
        assert (∃ namespace' outcome w',
                  match GetClusterNamespaceClient env cluster w with
                  | (inr err, w) =>
                    (handleError (ensureFinalizer namespace) ReconcileErrorReason
                       (Wrapf "can't create cluster namespace client: " err), w)
                  | (inl client, w) =>
                    let '(namespace, outcome, w) :=
                      Reconcile_withClient env (ensureFinalizer namespace) cluster client w in
                    (namespace, outcome, Close client w)
                  end = (namespace', outcome, w') ∧
                  Finalizers namespace' = Finalizers (ensureFinalizer namespace))
          as (namespace' & [result reterr] & w' & -> & Hfin).
        { unfold GetClusterNamespaceClient, dial.
          destruct (env_namespace_client env) as [e|]; [by eexists _, _, _|].
          pose proof (Reconcile_withClient_Finalizers env (ensureFinalizer namespace)
                        cluster (dialed w)
                        {| attributes := attributes w; rpcs := rpcs w;
                           dialed := S (dialed w); live := (live w ++ [dialed w])%list |})
            as Hfin.
          destruct (Reconcile_withClient _ _ _ _ _) as [[namespace' outcome] w'].
          by eexists _, _, _. }
        apply has_finalizer_Finalizers in Hfin. rewrite Hensure in Hfin.
        exists namespace'. cbn [pass_object pass_world].
        split_and!; [done|done|by intros; rewrite Hfin| |].
        -- intros Hno Hyes. rewrite Hfin, Hno in Hyes. by simpl in Hyes.
        -- intros Hyes Hno. by rewrite Hfin, Hyes in Hno.
      * unfold ensureNamespaceDeleted.
        change (ContainsFinalizer namespace deletionFinalizer)
          with (has_finalizer namespace).
        destruct (has_finalizer namespace) eqn:Hhas; cbn [negb].
        2: { exists namespace. cbn [pass_object].
             split_and!; [done|done|done| |]; congruence. }
        unfold GetClusterClient, dial.
        destruct (env_client env) as [e|].
        { eexists. cbn [pass_object]. split; [reflexivity|].
          split_and!; [done|done| |]; rewrite ?has_finalizer_handleError, ?has_finalizer_SetTemporalNamespaceReconcileError; congruence. }
        unfold ensureNamespaceDeleted_withClient, OperatorService_DeleteNamespace, request.
        destruct (env_delete env) as [e|] eqn:Hdelete.
        -- destruct (As NamespaceNotFound e) eqn:Hnf.
           ++ eexists. cbn [pass_object]. split; [reflexivity|].
              split_and!; [done|done| |].
              ** by rewrite has_finalizer_RemoveFinalizer.
              ** intros _ _. split; [done|]. right. exists cluster.
                 split_and!; [done|done|done|]. right. by exists e.
           ++ eexists. cbn [pass_object]. split; [reflexivity|].
              split_and!; [done|done| |]; rewrite ?has_finalizer_handleError, ?has_finalizer_SetTemporalNamespaceReconcileError; congruence.
        -- eexists. cbn [pass_object]. split; [reflexivity|].
           split_and!; [done|done| |].
           ++ by rewrite has_finalizer_RemoveFinalizer.
           ++ intros _ _. split; [done|]. right. exists cluster.
              split_and!; [done|done|done|]. by left.
    + exists namespace. cbn [pass_object].
      split_and!; [done|done|congruence| |]; congruence.
  - destruct (IsNotFound e) eqn:Habsent;
      destruct (Time_IsZero (DeletionTimestamp namespace)) eqn:Hts; cbn [negb andb].
    2: { eexists. cbn [pass_object pass_world]. split; [reflexivity|].
         split_and!; [done|done| |].
         - by rewrite has_finalizer_RemoveFinalizer.
         - intros _ _. split; [done|]. left. by exists e. }
    all: eexists; cbn [pass_object]; (split; [reflexivity|]);
      split_and!; [done|done| |]; rewrite ?has_finalizer_handleError, ?has_finalizer_SetTemporalNamespaceReconcileError; congruence.
Qed.

(** The lifecycle theorem on a deletion pass: the finalizer goes after the
    one delete request, which succeeded. *)
Lemma finalizer_lifecycle_witness :
  env_namespace deleting_env = inl deleting_namespace ∧
  env_helper deleting_env = None ∧
  has_finalizer deleting_namespace = true ∧
  (has_finalizer <$> pass_object (Reconcile deleting_env scenarioA_world)) = Some false ∧
  Time_IsZero (DeletionTimestamp deleting_namespace) = false ∧
  ((∃ err, env_cluster deleting_env = inr err ∧ IsNotFound err = true ∧
           pass_world (Reconcile deleting_env scenarioA_world) = scenarioA_world) ∨
   (∃ cluster, env_cluster deleting_env = inl cluster ∧ IsReady cluster = true ∧
      rpcs (pass_world (Reconcile deleting_env scenarioA_world)) =
        (rpcs scenarioA_world ++ [DeleteNamespace (GetName deleting_namespace)])%list ∧
      (env_delete deleting_env = None ∨
       ∃ e, env_delete deleting_env = Some e ∧ As NamespaceNotFound e = true))).
Proof.
  split; [reflexivity|]. split; [reflexivity|]. split; [by vm_compute|].
  split; [by vm_compute|].
  destruct (finalizer_lifecycle deleting_env scenarioA_world deleting_namespace
              eq_refl eq_refl) as (namespace' & Hobject & _ & _ & _ & Hremoved).
  apply Hremoved; [by vm_compute|].
  vm_compute in Hobject. injection Hobject as <-. by vm_compute.
Defined.

(** C4, as stated, fails twice.  On the finalizer-drop path the finalizer is
    removed although no delete request, nor any other, was sent.  And an
    object that carries the finalizer keeps it through a successful pass
    although its spec does not allow deletion and no deletion is pending. *)
Lemma finalizer_lifecycle_counterexample :
  let dropped := Reconcile orphaned_env scenarioA_world in
  let retained := Reconcile retained_env scenarioA_world in
  has_finalizer deleting_namespace = true ∧
  (has_finalizer <$> pass_object dropped) = Some false ∧
  rpcs (pass_world dropped) = [] ∧
  AllowDeletion retained_namespace = false ∧
  DeletionTimestamp retained_namespace = None ∧
  (has_finalizer <$> pass_object retained) = Some true ∧
  pass_err retained = None.
Proof. by vm_compute. Qed.

(** C10: on an object without the deletion finalizer the deletion procedure
    returns no error at once, with the object and the remote world as they
    were; so the pass that deletes such an object (cluster ready, deletion
    timestamp set) sends nothing to the server and dials no connection. *)
Theorem ensureNamespaceDeleted_without_finalizer env namespace cluster w :
  ContainsFinalizer namespace deletionFinalizer = false →
  ensureNamespaceDeleted env namespace cluster w = (None, namespace, w) ∧
  (env_namespace env = inl namespace → env_helper env = None →
   env_cluster env = inl cluster → IsReady cluster = true →
   Time_IsZero (DeletionTimestamp namespace) = false →
   pass_world (Reconcile env w) = w ∧
   pass_object (Reconcile env w) = Some namespace ∧
   pass_result (Reconcile env w) = Result_zero).
Proof.
  intros Hfin.
  assert (Hdel : ensureNamespaceDeleted env namespace cluster w = (None, namespace, w)).
  { unfold ensureNamespaceDeleted. by rewrite Hfin. }
  split; [done|]. intros Hns Hhelper Hcluster Hready Hts.
  unfold Reconcile, Reconcile_body. rewrite Hns, Hhelper, Hcluster, Hready, Hts.
  cbn [negb]. rewrite Hdel. by destruct (env_patch env).
Qed.

(** The theorem on a namespace under deletion that never had the
    finalizer. *)
Lemma ensureNamespaceDeleted_without_finalizer_witness :
  ContainsFinalizer unguarded_namespace deletionFinalizer = false ∧
  ensureNamespaceDeleted unguarded_env unguarded_namespace ready_cluster scenarioA_world =
    (None, unguarded_namespace, scenarioA_world) ∧
  pass_world (Reconcile unguarded_env scenarioA_world) = scenarioA_world.
Proof.
  assert (Hnone : ContainsFinalizer unguarded_namespace deletionFinalizer = false)
    by reflexivity.
  split; [exact Hnone|]. split.
  - exact (proj1 (ensureNamespaceDeleted_without_finalizer unguarded_env
                    unguarded_namespace ready_cluster scenarioA_world Hnone)).
  - exact (proj1 (proj2 (ensureNamespaceDeleted_without_finalizer unguarded_env
                           unguarded_namespace ready_cluster scenarioA_world Hnone)
                    eq_refl eq_refl eq_refl eq_refl eq_refl)).
Defined.

(** ** Registration *)

Lemma GetName_ensureFinalizer namespace :
  GetName (ensureFinalizer namespace) = GetName namespace.
Proof.
  unfold ensureFinalizer, AddFinalizer.
  by destruct (Time_IsZero _ && AllowDeletion _),
       (ContainsFinalizer namespace deletionFinalizer).
Qed.

(** C5: in a pass that reaches registration (object and cluster loaded, the
    cluster ready, no deletion pending, the namespace client dialed), a
    register call that reports already-exists is followed at once by an
    update call, and when the update succeeds the pass ends as the same
    pass does when the register call succeeds: same result, same returned
    error, same object and conditions, same server attributes, the update
    request being the only difference in the log.  Any other register error
    ends the pass after that one request, with the ReconcileError condition
    True and the error, wrapped with the namespace's name, as its message. *)
Theorem Reconcile_register_fallback env w namespace cluster :
  env_namespace env = inl namespace → env_helper env = None →
  env_cluster env = inl cluster → IsReady cluster = true →
  Time_IsZero (DeletionTimestamp namespace) = true →
  env_namespace_client env = None →
  let name := GetName namespace in
  let p := Reconcile env w in
  (∀ e, env_register env = Some e → As NamespaceAlreadyExists e = true →
     (∃ rest, rpcs (pass_world p) =
              (rpcs w ++ RegisterNamespace name :: UpdateNamespace name :: rest)%list) ∧
     (env_update env = None →
      let p' := Reconcile (register_succeeds env) w in
      pass_result p = pass_result p' ∧ pass_err p = pass_err p' ∧
      pass_object p = pass_object p' ∧
      attributes (pass_world p) = attributes (pass_world p') ∧
      ∃ rest,
        rpcs (pass_world p) =
          (rpcs w ++ RegisterNamespace name :: UpdateNamespace name :: rest)%list ∧
        rpcs (pass_world p') = (rpcs w ++ RegisterNamespace name :: rest)%list)) ∧
  (∀ e, env_register env = Some e → As NamespaceAlreadyExists e = false →
     rpcs (pass_world p) = (rpcs w ++ [RegisterNamespace name])%list ∧
     pass_result p = Result_zero ∧
     ∃ namespace',
       pass_object p = Some namespace' ∧
       ns_Conditions namespace' !! ReconcileErrorCondition =
         Some {| cond_Status := ConditionTrue;
                 cond_Reason := ReconcileErrorReason;
                 cond_Message :=
                   ("can't create " +:+ GoStrings.dquote +:+ name +:+ GoStrings.dquote
                    +:+ " namespace: ") +:+ Error e |}).
Proof.
  intros Hns Hhelper Hcluster Hready Hts Hdial name p. subst p.
  unfold Reconcile. cbn [register_succeeds env_namespace env_helper env_patch].
  rewrite Hns, Hhelper. unfold Reconcile_body.
  cbn [register_succeeds env_cluster]. rewrite Hcluster, Hready, Hts. cbn [negb].
  unfold GetClusterNamespaceClient, dial. cbn [register_succeeds env_namespace_client].
  rewrite Hdial.
  set (w1 := {| attributes := attributes w; rpcs := rpcs w;
                dialed := S (dialed w); live := (live w ++ [dialed w])%list |}).
  destruct (reconcileCustomSearchAttributes_log env (ensureFinalizer namespace) cluster w1)
    as (err & added & w2 & Hlog).
  assert (Hlog' : ∀ calls,
            reconcileCustomSearchAttributes (register_succeeds env)
              (ensureFinalizer namespace) cluster (set_rpcs w1 calls) =
            (err, set_rpcs w2 (calls ++ added))) by exact Hlog.
  unfold Reconcile_withClient, Register, Update, request.
  cbn [register_succeeds env_register env_update].
  split.
  - intros e -> Hexists. rewrite Hexists. cbn [negb].
    rewrite GetName_ensureFinalizer. fold name.
    split.
    + destruct (env_update env) as [e'|].
      * exists []. subst w1. cbn. by rewrite <- app_assoc.
      * match goal with
        | |- context [reconcileCustomSearchAttributes env _ _ ?w'] =>
            change w' with (set_rpcs w1 ((rpcs w ++ [RegisterNamespace name])
                                         ++ [UpdateNamespace name])%list)
        end.
        rewrite Hlog. exists added. subst w1.
        destruct err; cbn; by rewrite <- !app_assoc.
    + intros ->.
      match goal with
      | |- context [reconcileCustomSearchAttributes env _ _ ?w'] =>
          change w' with (set_rpcs w1 ((rpcs w ++ [RegisterNamespace name])
                                       ++ [UpdateNamespace name])%list)
      end.
      match goal with
      | |- context [reconcileCustomSearchAttributes (register_succeeds env) _ _ ?w'] =>
          change w' with (set_rpcs w1 (rpcs w ++ [RegisterNamespace name])%list)
      end.
      rewrite Hlog, Hlog'. subst w1.
      destruct err; cbn; (split_and!; [done..|]); exists added;
        split; by rewrite <- !app_assoc.
  - intros e -> Hother. rewrite Hother. cbn [negb].
    rewrite GetName_ensureFinalizer. fold name.
    subst w1. cbn. split; [done|split; [done|]]. eexists. split; [reflexivity|].
    cbn. by rewrite lookup_insert_eq.
Qed.

(** The fallback theorem on Scenario D. *)
Lemma Reconcile_register_fallback_witness :
  env_namespace already_registered_env = inl scenarioA_namespace ∧
  env_cluster already_registered_env = inl ready_cluster ∧
  IsReady ready_cluster = true ∧
  ∃ rest,
    rpcs (pass_world (Reconcile already_registered_env scenarioA_world)) =
    (rpcs scenarioA_world
     ++ RegisterNamespace (GetName scenarioA_namespace)
        :: UpdateNamespace (GetName scenarioA_namespace) :: rest)%list.
Proof.
  split; [reflexivity|]. split; [reflexivity|]. split; [reflexivity|].
  exact (proj1 (proj1 (Reconcile_register_fallback already_registered_env
                         scenarioA_world scenarioA_namespace ready_cluster
                         eq_refl eq_refl eq_refl eq_refl eq_refl eq_refl)
                  (New NamespaceAlreadyExists "Namespace already exists.")
                  eq_refl eq_refl)).
Defined.

(** Scenario D, run: register, then update, then the attributes; the pass
    ends in success. *)
Example scenarioD_run :
  let p := Reconcile already_registered_env scenarioA_world in
  rpcs (pass_world p) =
    [ RegisterNamespace "orders"; UpdateNamespace "orders";
      ListSearchAttributes "orders";
      RemoveSearchAttributes "orders" ["Legacy"];
      AddSearchAttributes "orders" {[ "Amount" := INDEXED_VALUE_TYPE_INT ]} ] ∧
  (pass_result p, pass_err p) = (Result_zero, None) ∧
  (pass_object p ≫= λ o, ns_Conditions o !! ReconcileErrorCondition) = None ∧
  (cond_Status <$> (pass_object p ≫= λ o, ns_Conditions o !! ReadyCondition)) =
    Some ConditionTrue.
Proof. by vm_compute. Qed.

(** ** Outcomes *)

(** C6, as amended: [handleErrorWithRequeue] sets the ReconcileError
    condition True with the error's message (and the given reason, or the
    default one for an empty reason) and returns the caller's delay with a
    nil error.  The runtime therefore requeues after the delay when it is
    positive and does not retry at all when it is zero; [handleError] gives
    zero, and what it returns to the runtime is what [handleSuccess]
    returns. *)
Theorem handleErrorWithRequeue_outcome namespace reason err requeueAfter :
  let handled := handleErrorWithRequeue namespace reason err requeueAfter in
  ns_Conditions handled.1 !! ReconcileErrorCondition =
    Some {| cond_Status := ConditionTrue;
            cond_Reason := if decide (reason = EmptyString)
                           then ReconcileErrorReason else reason;
            cond_Message := Error err |} ∧
  handled.2 = ({| Requeue := false; RequeueAfter := requeueAfter |}, None) ∧
  runtime_decision handled.2 =
    (if 0 <? requeueAfter then RetryAfter requeueAfter else NoRetry) ∧
  handleError namespace reason err = handleErrorWithRequeue namespace reason err 0 ∧
  runtime_decision (handleError namespace reason err).2 = NoRetry ∧
  (handleError namespace reason err).2 = (handleSuccess namespace).2.
Proof.
  repeat split.
  - unfold handleErrorWithRequeue, SetTemporalNamespaceReconcileError, setCondition.
    cbn [fst ns_Conditions set_Conditions]. by rewrite lookup_insert_eq.
Qed.

(** C6, as stated, fails: with a zero delay the outcome handed to the
    runtime carries no error and no requeue, so no backoff retry follows; a
    pass whose register call is refused ends that way, with the error in
    the condition only. *)
Lemma handleError_counterexample :
  let p := Reconcile unreachable_env scenarioA_world in
  runtime_decision
    (handleErrorWithRequeue scenarioA_namespace ReconcileErrorReason
       (Errorf "connection refused") 0).2 = NoRetry ∧
  (cond_Status <$> (pass_object p ≫= λ o, ns_Conditions o !! ReconcileErrorCondition)) =
    Some ConditionTrue ∧
  pass_err p = None ∧
  runtime_decision (pass_result p, pass_err p) = NoRetry.
Proof. by vm_compute. Qed.

(** ** Connections *)

(** C7 fails on the code: in Scenario A every call succeeds, the pass ends
    without error, and of the two connections it dialed the second, the one
    [reconcileCustomSearchAttributes] opened, is still open at the end.  The
    deletion pass closes the one connection it dials. *)
Theorem Reconcile_leaves_connection_open :
  let p := Reconcile scenarioA_env scenarioA_world in
  let q := Reconcile deleting_env scenarioA_world in
  pass_err p = None ∧
  dialed (pass_world p) = 2%nat ∧
  live (pass_world p) = [1%nat] ∧
  dialed (pass_world q) = 1%nat ∧
  live (pass_world q) = [].
Proof. by vm_compute. Qed.

(** ** The defaults normalizer *)

Lemma or_string_idem s d : or_string (or_string s d) d = or_string s d.
Proof. unfold or_string. by repeat case_decide. Qed.

Lemma or_string_set s d : d ≠ EmptyString → or_string s d ≠ EmptyString.
Proof. unfold or_string. by case_decide. Qed.

Lemma or_string_kept s d : kept_string s (or_string s d).
Proof. unfold or_string, kept_string. case_decide; auto. Qed.

Lemma or_pointer_kept {A} (p : option A) d : kept_pointer p (or_pointer p d).
Proof. destruct p; [by right|by left]. Qed.

Lemma or_pointer_set {A} (p : option A) d : is_Some (or_pointer p d).
Proof. by destruct p. Qed.

Lemma or_pointer_idem {A} (p : option A) d :
  or_pointer (or_pointer p d) d = or_pointer p d.
Proof. by destruct p. Qed.

Lemma default_datastore_idem datastore :
  default_datastore (default_datastore datastore) = default_datastore datastore.
Proof.
  unfold default_datastore. destruct datastore as [name [sql|]]; [|done].
  cbn. by rewrite or_string_idem.
Qed.

Lemma default_mtls_idem mtls :
  default_mtls (default_mtls mtls) = default_mtls mtls.
Proof.
  destruct mtls as [provider refresh [durations|]]; unfold default_mtls; cbn;
    by rewrite !or_pointer_idem.
Qed.

Lemma visibility_idem (visibility store : string) :
  let chosen := if decide (visibility = EmptyString) then store else visibility in
  (if decide (chosen = EmptyString) then store else chosen) = chosen.
Proof. cbn. by repeat case_decide. Qed.

Lemma reconcileDefaults_Spec_idem cluster :
  Spec (reconcileDefaults (reconcileDefaults cluster).1).1 =
  Spec (reconcileDefaults cluster).1.
Proof.
  destruct cluster as [name namespace labels annotations spec conditions].
  destruct spec as [version image services datastores [store visibility] ui tools mtls].
  unfold reconcileDefaults, MTLSWithCertManagerEnabled.
  cbn [fst Spec Version Image Services Datastores Persistence UI AdminTools MTLS
       DefaultStore VisibilityStore or_new Frontend History Matching Worker
       Replicas Port MembershipPort HTTPPort ui_Version ui_Image admintools_Image].
  f_equal.
  - apply or_string_idem.
  - apply or_string_idem.
  - by rewrite !or_pointer_idem.
  - rewrite <- list_fmap_compose. apply list_fmap_ext. intros _ datastore _.
    apply default_datastore_idem.
  - f_equal. apply visibility_idem.
  - by rewrite !or_string_idem.
  - by rewrite or_string_idem.
  - destruct mtls as [m|]; [|done]. cbn.
    destruct (bool_decide (Provider m = CertManagerMTLSProvider)) eqn:Hp; cbn.
    + change (Provider (default_mtls m)) with (Provider m). rewrite Hp.
      cbn. by rewrite default_mtls_idem.
    + by rewrite Hp.
Qed.

Lemma reconcileDefaults_unfold cluster :
  reconcileDefaults cluster =
  ({| cluster_Name := cluster_Name cluster;
      cluster_Namespace := cluster_Namespace cluster;
      cluster_Labels := cluster_Labels cluster;
      cluster_Annotations := cluster_Annotations cluster;
      Spec := Spec (reconcileDefaults cluster).1;
      cluster_Conditions := cluster_Conditions cluster |},
   negb (DeepEqual (Spec cluster) (Spec (reconcileDefaults cluster).1))).
Proof. done. Qed.

Lemma reconcileDefaults_defaults_set cluster :
  defaults_set (Spec (reconcileDefaults cluster).1).
Proof.
  destruct cluster as [name namespace labels annotations spec conditions].
  destruct spec as [version image services datastores [store visibility] ui tools mtls].
  unfold reconcileDefaults, MTLSWithCertManagerEnabled.
  cbn [fst Spec Version Image Services Datastores Persistence UI AdminTools MTLS].
  split_and!.
  - by apply or_string_set.
  - by apply or_string_set.
  - eexists. split; [reflexivity|].
    cbn [Frontend History Matching Worker].
    split_and!; (eexists; split; [reflexivity|]);
      cbn [Replicas Port MembershipPort]; split_and!; apply or_pointer_set.
  - apply Forall_fmap, Forall_true. intros [dsname [sql|]] sql'; cbn; [|done].
    intros [= <-]. cbn. by apply or_string_set.
  - eexists. split; [reflexivity|]. cbn [ui_Version ui_Image].
    split; by apply or_string_set.
  - eexists. split; [reflexivity|]. cbn [admintools_Image]. by apply or_string_set.
  - intros m Hm Hprovider. destruct mtls as [m0|]; [|done]. cbn in Hm.
    destruct (bool_decide (Provider m0 = CertManagerMTLSProvider)) eqn:Hp.
    + cbn in Hm. injection Hm as <-. cbn. split; [apply or_pointer_set|].
      eexists. split; [reflexivity|]. cbn. split_and!; apply or_pointer_set.
    + injection Hm as <-. apply bool_decide_eq_false_1 in Hp. done.
Qed.

Lemma reconcileDefaults_kept cluster :
  kept (Spec cluster) (Spec (reconcileDefaults cluster).1).
Proof.
  destruct cluster as [name namespace labels annotations spec conditions].
  destruct spec as [version image services datastores [store visibility] ui tools mtls].
  unfold reconcileDefaults, MTLSWithCertManagerEnabled.
  cbn [fst Spec Version Image Services Datastores Persistence UI AdminTools MTLS
       DefaultStore VisibilityStore].
  split_and!.
  - apply or_string_kept.
  - apply or_string_kept.
  - destruct services as [[frontend history matching worker]|]; [|done]. cbn.
    split_and!.
    + destruct frontend; [|done]. cbn. split_and!; [apply or_pointer_kept..|done].
    + destruct history; [|done]. cbn. split_and!; [apply or_pointer_kept..|done].
    + destruct matching; [|done]. cbn. split_and!; [apply or_pointer_kept..|done].
    + destruct worker; [|done]. cbn. split_and!; [apply or_pointer_kept..|done].
  - apply Forall2_fmap_r, Forall_Forall2_diag, Forall_true.
    intros [dsname [sql|]]; unfold kept_datastore; cbn; [|done].
    split; [done|]. apply or_string_kept.
  - done.
  - unfold kept_string. case_decide; auto.
  - destruct ui; [|done]. cbn. split; apply or_string_kept.
  - destruct tools; [|done]. cbn. apply or_string_kept.
  - destruct mtls as [m|]; [|done]. cbn.
    destruct (bool_decide (Provider m = CertManagerMTLSProvider)); cbn.
    + split_and!; [done|apply or_pointer_kept|].
      destruct (CertificatesDuration m); [|done]. cbn.
      split_and!; apply or_pointer_kept.
    + split_and!; [done|by right|].
      destruct (CertificatesDuration m); [|done]. cbn. split_and!; by right.
Qed.

(** C8, as amended: after one call every optional field the normalizer
    governs is set, the visibility store apart, which is set unless the
    default store it falls back to is itself empty; a second call on the
    result changes nothing and returns false; no field that was set is
    cleared or overridden; and the call returns false exactly when it
    changed nothing. *)
Theorem reconcileDefaults_fixed_point cluster :
  let normalized := (reconcileDefaults cluster).1 in
  defaults_set (Spec normalized) ∧
  (VisibilityStore (Persistence (Spec normalized)) ≠ EmptyString ∨
   DefaultStore (Persistence (Spec cluster)) = EmptyString) ∧
  reconcileDefaults normalized = (normalized, false) ∧
  kept (Spec cluster) (Spec normalized) ∧
  ((reconcileDefaults cluster).2 = false ↔ Spec normalized = Spec cluster).
Proof.
  intros normalized. split_and!.
  - apply reconcileDefaults_defaults_set.
  - unfold normalized, reconcileDefaults. cbn. case_decide as Hv; [|by left].
    destruct (decide (DefaultStore (Persistence (Spec cluster)) = EmptyString)); auto.
  - rewrite (reconcileDefaults_unfold normalized).
    subst normalized. rewrite !reconcileDefaults_Spec_idem.
    unfold DeepEqual. rewrite bool_decide_eq_true_2 by done. reflexivity.
  - apply reconcileDefaults_kept.
  - rewrite reconcileDefaults_unfold. cbn [snd]. fold normalized. unfold DeepEqual.
    rewrite negb_false_iff, bool_decide_eq_true. split; congruence.
Qed.

(** C8, as stated, fails: on a spec that names no default store the
    visibility store is still empty after the call, so not every field the
    normalizer governs is set. *)
Lemma reconcileDefaults_counterexample :
  VisibilityStore (Persistence (Spec (reconcileDefaults blank_cluster).1)) = EmptyString ∧
  ¬ all_defaults_set (Spec (reconcileDefaults blank_cluster).1).
Proof. split; [reflexivity|]. intros [_ Hset]. by apply Hset. Qed.

(** The defaults of a blank spec. *)
Example reconcileDefaults_blank :
  let normalized := Spec (reconcileDefaults blank_cluster).1 in
  (reconcileDefaults blank_cluster).2 = true ∧
  Version normalized = "1.17.4" ∧
  (Services normalized ≫= Frontend) =
    Some {| Replicas := Some 1; Port := Some 7233;
            MembershipPort := Some 6933; HTTPPort := None |} ∧
  (Services normalized ≫= Worker) =
    Some {| Replicas := Some 1; Port := Some 7239;
            MembershipPort := Some 6939; HTTPPort := None |}.
Proof. by vm_compute. Qed.

(** ** The frontend service builder *)

(** C9: when the cluster's frontend has its primary port, [Update] returns
    (it does not panic), and the service it leaves has exactly one port
    entry, the gRPC port, when the frontend has no HTTP port, and exactly
    two, the gRPC port first and the HTTP port after it, when it has one;
    this holds whether or not setting the controller reference fails. *)
Theorem FrontendServiceBuilder_Update_ports `{!Helpers}
    (b : FrontendServiceBuilder.builder) (object : Service) services frontend port :
  Services (Spec (FrontendServiceBuilder.instance b)) = Some services →
  Frontend services = Some frontend →
  Port frontend = Some port →
  ∃ service err,
    FrontendServiceBuilder.Update b object = Some (service, err) ∧
    service_Ports (service_Spec service) =
      match HTTPPort frontend with
      | None =>
        [ {| port_Name := "grpc-rpc"; port_Protocol := ProtocolTCP;
             port_Port := port; port_TargetPort := FromString "rpc" |} ]
      | Some httpPort =>
        [ {| port_Name := "grpc-rpc"; port_Protocol := ProtocolTCP;
             port_Port := port; port_TargetPort := FromString "rpc" |};
          {| port_Name := "http"; port_Protocol := ProtocolTCP;
             port_Port := httpPort; port_TargetPort := FromString "http" |} ]
      end.
Proof.
  intros Hservices Hfrontend Hport. unfold FrontendServiceBuilder.Update.
  rewrite Hservices. cbn [mbind option_bind]. rewrite Hfrontend. cbn [mbind option_bind].
  rewrite Hport. cbn [mbind option_bind].
  destruct (SetControllerReference _ _) as [meta err].
  eexists _, _. split; [reflexivity|]. cbn [service_Ports service_Spec].
  by destruct (HTTPPort frontend).
Qed.

(** Scenario C: the port theorem without and with an HTTP port. *)
Lemma FrontendServiceBuilder_Update_ports_witness :
  let grpc := {| port_Name := "grpc-rpc"; port_Protocol := ProtocolTCP;
                 port_Port := 7233; port_TargetPort := FromString "rpc" |} in
  let http := {| port_Name := "http"; port_Protocol := ProtocolTCP;
                 port_Port := 7243; port_TargetPort := FromString "http" |} in
  (∃ service err,
     @FrontendServiceBuilder.Update sample_helpers
       {| FrontendServiceBuilder.instance := frontend_cluster None |} blank_service =
       Some (service, err) ∧
     service_Ports (service_Spec service) = [grpc]) ∧
  (∃ service err,
     @FrontendServiceBuilder.Update sample_helpers
       {| FrontendServiceBuilder.instance := frontend_cluster (Some 7243) |} blank_service =
       Some (service, err) ∧
     service_Ports (service_Spec service) = [grpc; http]).
Proof.
  split.
  - exact (@FrontendServiceBuilder_Update_ports sample_helpers
             {| FrontendServiceBuilder.instance := frontend_cluster None |}
             blank_service _ _ 7233 eq_refl eq_refl eq_refl).
  - exact (@FrontendServiceBuilder_Update_ports sample_helpers
             {| FrontendServiceBuilder.instance := frontend_cluster (Some 7243) |}
             blank_service _ _ 7233 eq_refl eq_refl eq_refl).
Defined.

(** * Further properties of the code *)

(** ** searchAttributeTypeStringToEnum *)

Lemma is_ascii_to_lower c :
  GoStrings.is_ascii (GoStrings.to_lower c) = GoStrings.is_ascii c.
Proof. by destruct c as [[] [] [] [] [] [] [] []]. Qed.

Lemma EqualFold_same_lower k s :
  all_ascii k = true → GoStrings.lower s = GoStrings.lower k →
  GoStrings.EqualFold s k = true.
Proof.
  revert s. induction k as [|d k' IH]; intros s Hascii Hlower.
  - by destruct s.
  - destruct s as [|c s']; [done|]. simpl in Hlower, Hascii.
    injection Hlower as Hc Hs. apply andb_true_iff in Hascii as [Hd Hk'].
    assert (Hcascii : GoStrings.is_ascii c = true)
      by by rewrite <- is_ascii_to_lower, Hc, is_ascii_to_lower.
    simpl. rewrite Hcascii. simpl. rewrite Hc, Ascii.eqb_refl. simpl. by apply IH.
Qed.

Lemma IndexedValueType_shorthandValue_ascii :
  Forall (λ p, all_ascii p.1 = true) IndexedValueType_shorthandValue.
Proof. repeat constructor. Qed.

(** X1: [searchAttributeTypeStringToEnum] accepts every spelling of a table
    name that differs from it only in the case of its letters: a string
    whose lower-case form is that of a key of the table resolves to that
    key's type, with no error. *)
Theorem searchAttributeTypeStringToEnum_case_insensitive k v s :
  (k, v) ∈ IndexedValueType_shorthandValue →
  GoStrings.lower s = GoStrings.lower k →
  searchAttributeTypeStringToEnum s = (v, None).
Proof.
  intros Hin Hlower. unfold searchAttributeTypeStringToEnum.
  rewrite (shorthand_lookup_elem _ s k v IndexedValueType_shorthandValue_keys Hin); [done|].
  apply EqualFold_same_lower; [|done].
  exact (proj1 (Forall_forall _ _) IndexedValueType_shorthandValue_ascii (k, v) Hin).
Qed.

Lemma searchAttributeTypeStringToEnum_case_insensitive_witness :
  ("KeywordList", INDEXED_VALUE_TYPE_KEYWORD_LIST) ∈ IndexedValueType_shorthandValue ∧
  GoStrings.lower "kEYWORDlist" = GoStrings.lower "KeywordList" ∧
  searchAttributeTypeStringToEnum "kEYWORDlist" = (INDEXED_VALUE_TYPE_KEYWORD_LIST, None).
Proof.
  assert (Hin : ("KeywordList", INDEXED_VALUE_TYPE_KEYWORD_LIST)
                ∈ IndexedValueType_shorthandValue)
    by (apply (bool_decide_unpack _); vm_compute; exact I).
  split; [exact Hin|]. split; [reflexivity|].
  exact (searchAttributeTypeStringToEnum_case_insensitive _ _ "kEYWORDlist" Hin eq_refl).
Defined.

(** X2: the lookup of [searchAttributeTypeStringToEnum] does not depend on
    the order in which the table is iterated: over every permutation of the
    table it gives, for every string, what it gives over the table. *)
Theorem searchAttributeTypeStringToEnum_order_irrelevant table s :
  IndexedValueType_shorthandValue ≡ₚ table →
  shorthand_lookup table s = shorthand_lookup IndexedValueType_shorthandValue s.
Proof. apply shorthand_lookup_order, IndexedValueType_shorthandValue_keys. Qed.

Lemma searchAttributeTypeStringToEnum_order_irrelevant_witness :
  IndexedValueType_shorthandValue ≡ₚ reverse IndexedValueType_shorthandValue ∧
  shorthand_lookup (reverse IndexedValueType_shorthandValue) "datetime" =
    shorthand_lookup IndexedValueType_shorthandValue "datetime".
Proof.
  assert (Hperm : IndexedValueType_shorthandValue ≡ₚ reverse IndexedValueType_shorthandValue)
    by (symmetry; apply reverse_Permutation).
  split; [exact Hperm|].
  exact (searchAttributeTypeStringToEnum_order_irrelevant _ "datetime" Hperm).
Defined.

(** ** reconcileCustomSearchAttributes *)

Lemma translate_loop_inl_resolves entries acc M :
  translate_loop entries acc = inl M →
  Forall (λ p, (searchAttributeTypeStringToEnum p.2).2 = None) entries.
Proof.
  revert acc. induction entries as [|[k s] rest IH]; intros acc HM; [done|].
  simpl in HM. destruct (searchAttributeTypeStringToEnum s) as [t [e|]] eqn:Hs; [done|].
  constructor; [simpl; by rewrite Hs|by eapply IH].
Qed.

Lemma translate_loop_unresolvable entries n s :
  (n, s) ∈ entries → is_Some (searchAttributeTypeStringToEnum s).2 →
  ∀ acc, ∃ err, translate_loop entries acc = inr err.
Proof.
  intros Hin [e He] acc.
  destruct (translate_loop entries acc) as [M|err] eqn:HM; [|by eexists].
  apply translate_loop_inl_resolves in HM.
  apply (proj1 (Forall_forall _ _) HM) in Hin. simpl in Hin. congruence.
Qed.

Lemma add_loop_inl_compatible (R : gmap string IndexedValueType) entries acc A :
  add_loop entries R acc = inl A →
  Forall (λ p, R !! p.1 = None ∨ R !! p.1 = Some p.2) entries.
Proof.
  revert acc. induction entries as [|[k t] rest IH]; intros acc HA; [done|].
  simpl in HA. destruct (R !! k) as [t'|] eqn:HRk.
  - destruct (decide (t ≠ t')) as [|Heq]; [done|].
    constructor; [|by eapply IH]. right. simpl. rewrite HRk. f_equal.
    destruct (decide (t' = t)) as [|Hne]; [done|]. exfalso. apply Heq. congruence.
  - constructor; [by left|by eapply IH].
Qed.

(** The run once the dial and the list request have succeeded, for a spec
    that resolves and is compatible with the server's mapping: the two
    guarded requests. *)
Lemma reconcileCustomSearchAttributes_requests env namespace cluster w :
  let ns := GetName namespace in
  let M := parse_type <$> CustomSearchAttributes namespace in
  let R := server_attributes w ns in
  let names := remove_loop (map_to_list R) M [] in
  let w1 := {| attributes := attributes w;
               rpcs := (rpcs w ++ [ListSearchAttributes ns])%list;
               dialed := S (dialed w); live := (live w ++ [dialed w])%list |} in
  env_client env = None → env_list env = None →
  resolves (CustomSearchAttributes namespace) → compatible M R →
  reconcileCustomSearchAttributes env namespace cluster w =
  match
    (if bool_decide (names ≠ [])
     then
       match OperatorService_RemoveSearchAttributes env (dialed w) ns names w1 with
       | (Some err, w) => (Some (Wrapf "failed to remove search attributes: " err), w)
       | (None, w) => (None, w)
       end
     else (None, w1))
  with
  | (Some err, w) => (Some err, w)
  | (None, w) =>
    if bool_decide (M ∖ R ≠ ∅)
    then
      match OperatorService_AddSearchAttributes env (dialed w) ns (M ∖ R) w with
      | (Some err, w) => (Some (Wrapf "failed to add search attributes: " err), w)
      | (None, w) => (None, w)
      end
    else (None, w)
  end.
Proof.
  intros ns M R names w1 Hdial Hlist Hres Hcompat.
  assert (Hlen : (0 <? length names)%nat = bool_decide (names ≠ []))
    by by destruct names.
  assert (Hsize : (0 <? size (M ∖ R))%nat = bool_decide (M ∖ R ≠ ∅)).
  { destruct (decide (M ∖ R = ∅)) as [Hempty|Hne].
    - rewrite Hempty, map_size_empty. symmetry. apply bool_decide_eq_false_2. tauto.
    - rewrite bool_decide_eq_true_2 by done. apply Nat.ltb_lt.
      apply map_size_non_empty_iff in Hne. lia. }
  unfold reconcileCustomSearchAttributes, GetClusterClient, dial. rewrite Hdial.
  unfold OperatorService_ListSearchAttributes, request. rewrite Hlist.
  rewrite (translate_loop_spec _ _ (reflexivity _) Hres).
  change (server_attributes _ (GetName namespace)) with R.
  fold M. rewrite (add_loop_spec _ M R (reflexivity _) Hcompat).
  fold names. fold ns. rewrite Hlen, Hsize. reflexivity.
Qed.

(** A run that returns no error has resolved every type string and met no
    conflict. *)
Lemma reconcileCustomSearchAttributes_success_pre env namespace cluster w w' :
  reconcileCustomSearchAttributes env namespace cluster w = (None, w') →
  env_client env = None ∧ env_list env = None ∧
  resolves (CustomSearchAttributes namespace) ∧
  compatible (parse_type <$> CustomSearchAttributes namespace)
    (server_attributes w (GetName namespace)).
Proof.
  unfold reconcileCustomSearchAttributes, GetClusterClient, dial.
  destruct (env_client env) as [e|]; [done|].
  unfold OperatorService_ListSearchAttributes, request.
  destruct (env_list env) as [e|]; [done|].
  change (server_attributes _ (GetName namespace))
    with (server_attributes w (GetName namespace)).
  destruct (translate_loop _ ∅) as [M|e] eqn:HM; [|done].
  destruct (add_loop _ _ ∅) as [A|e] eqn:HA; [|done].
  intros _.
  assert (Hres : resolves (CustomSearchAttributes namespace)).
  { intros n s Hn. apply translate_loop_inl_resolves in HM.
    by apply (proj1 (Forall_forall _ _) HM (n, s)), elem_of_map_to_list. }
  rewrite (translate_loop_spec _ _ (reflexivity _) Hres) in HM. injection HM as <-.
  split_and!; [done..|].
  intros n t Hn. apply add_loop_inl_compatible in HA.
  by apply (proj1 (Forall_forall _ _) HA (n, t)), elem_of_map_to_list.
Qed.

(** What a run that returns no error leaves on the server. *)
Lemma reconcileCustomSearchAttributes_success_post env namespace cluster w w' :
  reconcileCustomSearchAttributes env namespace cluster w = (None, w') →
  server_attributes w' (GetName namespace) =
    parse_type <$> CustomSearchAttributes namespace ∧
  ∀ other, other ≠ GetName namespace → attributes w' !! other = attributes w !! other.
Proof.
  intros Hrun.
  destruct (reconcileCustomSearchAttributes_success_pre _ _ _ _ _ Hrun)
    as (Hdial & Hlist & Hres & Hcompat).
  rewrite (reconcileCustomSearchAttributes_requests _ _ _ _ Hdial Hlist Hres Hcompat)
    in Hrun.
  set (ns := GetName namespace) in *.
  set (M := parse_type <$> CustomSearchAttributes namespace) in *.
  set (R := server_attributes w ns) in *.
  destruct (remove_loop_spec (map_to_list R) R M) as [_ Hnames]; [done|].
  set (names := remove_loop (map_to_list R) M []) in *.
  pose proof (converged_mapping M R names Hcompat Hnames) as Hconv.
  assert (HR : default ∅ (attributes w !! ns) = R) by done.
  unfold OperatorService_RemoveSearchAttributes, OperatorService_AddSearchAttributes,
    request in Hrun.
  destruct (decide (names = [])) as [Hn|Hn], (decide (M ∖ R = ∅)) as [Ha|Ha].
  - rewrite bool_decide_eq_false_2 in Hrun by tauto.
    rewrite bool_decide_eq_false_2 in Hrun by tauto.
    injection Hrun as <-. split; [|done].
    unfold server_attributes. cbn [attributes]. rewrite HR.
    rewrite Ha, Hn, (left_id_L ∅ (∪)) in Hconv. exact Hconv.
  - rewrite bool_decide_eq_false_2 in Hrun by tauto.
    rewrite bool_decide_eq_true_2 in Hrun by done. cbn [attributes] in Hrun.
    destruct (env_add env) as [e|]; [done|]. injection Hrun as <-. split.
    + unfold server_attributes. cbn [attributes]. rewrite lookup_insert_eq, HR.
      rewrite Hn in Hconv. exact Hconv.
    + intros other Hother. cbn [attributes]. by rewrite lookup_insert_ne.
  - rewrite bool_decide_eq_true_2 in Hrun by done.
    rewrite bool_decide_eq_false_2 in Hrun by tauto. cbn [attributes] in Hrun.
    destruct (env_remove env) as [e|]; [done|]. injection Hrun as <-. split.
    + unfold server_attributes. cbn [attributes]. rewrite lookup_insert_eq, HR.
      rewrite Ha, (left_id_L ∅ (∪)) in Hconv. exact Hconv.
    + intros other Hother. cbn [attributes]. by rewrite lookup_insert_ne.
  - rewrite bool_decide_eq_true_2 in Hrun by done.
    rewrite bool_decide_eq_true_2 in Hrun by done. cbn [attributes] in Hrun.
    destruct (env_remove env) as [e|]; [done|]. cbn [attributes] in Hrun.
    destruct (env_add env) as [e|]; [done|]. injection Hrun as <-. split.
    + unfold server_attributes. cbn [attributes].
      rewrite !lookup_insert_eq, HR. exact Hconv.
    + intros other Hother. cbn [attributes]. by rewrite !lookup_insert_ne.
Qed.

(** X3: when [reconcileCustomSearchAttributes] returns no error, every
    declared type string resolved, no declared attribute clashed with the
    type the server held under its name, the server's mapping for the
    namespace is the declared one, and the mappings of all other namespaces
    are as they were. *)
Theorem reconcileCustomSearchAttributes_success env namespace cluster w w' :
  reconcileCustomSearchAttributes env namespace cluster w = (None, w') →
  resolves (CustomSearchAttributes namespace) ∧
  compatible (parse_type <$> CustomSearchAttributes namespace)
    (server_attributes w (GetName namespace)) ∧
  server_attributes w' (GetName namespace) =
    parse_type <$> CustomSearchAttributes namespace ∧
  ∀ other, other ≠ GetName namespace → attributes w' !! other = attributes w !! other.
Proof.
  intros Hrun.
  destruct (reconcileCustomSearchAttributes_success_pre _ _ _ _ _ Hrun)
    as (_ & _ & Hres & Hcompat).
  destruct (reconcileCustomSearchAttributes_success_post _ _ _ _ _ Hrun) as [Hpost Hframe].
  done.
Qed.

Lemma reconcileCustomSearchAttributes_success_witness :
  (reconcileCustomSearchAttributes scenarioA_env scenarioA_namespace ready_cluster
     scenarioA_world).1 = None ∧
  server_attributes
    (reconcileCustomSearchAttributes scenarioA_env scenarioA_namespace ready_cluster
       scenarioA_world).2 (GetName scenarioA_namespace) =
    parse_type <$> CustomSearchAttributes scenarioA_namespace.
Proof.
  split; [by vm_compute|].
  exact (proj1 (proj2 (proj2 (reconcileCustomSearchAttributes_success scenarioA_env
                                scenarioA_namespace ready_cluster scenarioA_world _
                                (surjective_pairing _))))).
Defined.

(** X4: a declared attribute whose type string does not resolve makes
    [reconcileCustomSearchAttributes] fail before it changes anything: an
    error is returned, the server's attributes are as they were, and at most
    the list request has been sent. *)
Theorem reconcileCustomSearchAttributes_unresolvable env namespace cluster w n s :
  let ns := GetName namespace in
  let run := reconcileCustomSearchAttributes env namespace cluster w in
  CustomSearchAttributes namespace !! n = Some s →
  is_Some (searchAttributeTypeStringToEnum s).2 →
  is_Some run.1 ∧
  attributes run.2 = attributes w ∧
  (rpcs run.2 = rpcs w ∨ rpcs run.2 = (rpcs w ++ [ListSearchAttributes ns])%list).
Proof.
  intros ns run HS Hbad. subst run.
  unfold reconcileCustomSearchAttributes, GetClusterClient, dial.
  destruct (env_client env) as [e|]; [by eauto|].
  unfold OperatorService_ListSearchAttributes, request.
  destruct (env_list env) as [e|]; [by eauto|].
  destruct (translate_loop_unresolvable (map_to_list (CustomSearchAttributes namespace))
              n s (proj2 (elem_of_map_to_list _ _ _) HS) Hbad ∅) as [e ->].
  by eauto.
Qed.

Lemma reconcileCustomSearchAttributes_unresolvable_witness :
  let run := reconcileCustomSearchAttributes misdeclared_env misdeclared_namespace
               ready_cluster scenarioA_world in
  CustomSearchAttributes misdeclared_namespace !! "Amount" = Some "Integer" ∧
  is_Some (searchAttributeTypeStringToEnum "Integer").2 ∧
  is_Some run.1 ∧
  attributes run.2 = attributes scenarioA_world ∧
  (rpcs run.2 = rpcs scenarioA_world ∨
   rpcs run.2 = (rpcs scenarioA_world ++ [ListSearchAttributes "orders"])%list).
Proof.
  assert (Hspec : CustomSearchAttributes misdeclared_namespace !! "Amount" = Some "Integer")
    by (vm_compute; reflexivity).
  assert (Hbad : is_Some (searchAttributeTypeStringToEnum "Integer").2)
    by (vm_compute; eauto).
  split; [exact Hspec|split; [exact Hbad|]].
  exact (reconcileCustomSearchAttributes_unresolvable misdeclared_env misdeclared_namespace
           ready_cluster scenarioA_world "Amount" "Integer" Hspec Hbad).
Defined.

(** X5: after a run of [reconcileCustomSearchAttributes] that returned no
    error, a further run whose dial and list request succeed returns no
    error, sends the list request and nothing else, and leaves the server's
    attributes as they are, whatever the server would answer to a removal or
    an addition. *)
Theorem reconcileCustomSearchAttributes_second_run env env' namespace cluster w w1 :
  reconcileCustomSearchAttributes env namespace cluster w = (None, w1) →
  env_client env' = None → env_list env' = None →
  ∃ w2,
    reconcileCustomSearchAttributes env' namespace cluster w1 = (None, w2) ∧
    rpcs w2 = (rpcs w1 ++ [ListSearchAttributes (GetName namespace)])%list ∧
    attributes w2 = attributes w1.
Proof.
  intros Hrun Hdial Hlist.
  destruct (reconcileCustomSearchAttributes_success_pre _ _ _ _ _ Hrun)
    as (_ & _ & Hres & _).
  destruct (reconcileCustomSearchAttributes_success_post _ _ _ _ _ Hrun) as [Hpost _].
  set (M := parse_type <$> CustomSearchAttributes namespace) in *.
  assert (Hcompat : compatible M (server_attributes w1 (GetName namespace))).
  { rewrite Hpost. intros n t Hn. by right. }
  rewrite (reconcileCustomSearchAttributes_requests _ _ _ _ Hdial Hlist Hres Hcompat).
  fold M. rewrite Hpost.
  destruct (remove_loop_spec (map_to_list M) M M) as [_ Hnames]; [done|].
  assert (Hnone : remove_loop (map_to_list M) M [] = []).
  { apply elem_of_nil_inv. intros n Hn. apply Hnames, elem_of_difference in Hn as [? ?]. done. }
  rewrite Hnone, map_difference_diag.
  rewrite bool_decide_eq_false_2 by (intros Hne; by apply Hne).
  rewrite bool_decide_eq_false_2 by (intros Hne; by apply Hne).
  by eexists.
Qed.

Lemma reconcileCustomSearchAttributes_second_run_witness :
  let first := reconcileCustomSearchAttributes scenarioA_env scenarioA_namespace
                 ready_cluster scenarioA_world in
  first.1 = None ∧
  ∃ w2,
    reconcileCustomSearchAttributes refused_removal_env scenarioA_namespace ready_cluster
      first.2 = (None, w2) ∧
    rpcs w2 = (rpcs first.2 ++ [ListSearchAttributes (GetName scenarioA_namespace)])%list ∧
    attributes w2 = attributes first.2.
Proof.
  split; [by vm_compute|].
  exact (reconcileCustomSearchAttributes_second_run scenarioA_env refused_removal_env
           scenarioA_namespace ready_cluster scenarioA_world _
           (surjective_pairing _) eq_refl eq_refl).
Defined.

(** X6: when the server holds an attribute that the spec does not declare
    and the removal request fails, [reconcileCustomSearchAttributes] returns
    the server's error behind the removal prefix, and has sent the list
    request and the removal request, which names that attribute, and no
    addition request. *)
Theorem reconcileCustomSearchAttributes_removal_fails env namespace cluster w n err :
  let ns := GetName namespace in
  let M := parse_type <$> CustomSearchAttributes namespace in
  let R := server_attributes w ns in
  let run := reconcileCustomSearchAttributes env namespace cluster w in
  env_client env = None → env_list env = None →
  resolves (CustomSearchAttributes namespace) → compatible M R →
  n ∈ dom R → n ∉ dom M →
  env_remove env = Some err →
  run.1 = Some (Wrapf "failed to remove search attributes: " err) ∧
  ∃ names,
    n ∈ names ∧
    rpcs run.2 =
      (rpcs w ++ [ListSearchAttributes ns; RemoveSearchAttributes ns names])%list.
Proof.
  intros ns M R run Hdial Hlist Hres Hcompat HnR HnM Hremove. subst run.
  rewrite (reconcileCustomSearchAttributes_requests _ _ _ _ Hdial Hlist Hres Hcompat).
  fold ns M R.
  destruct (remove_loop_spec (map_to_list R) R M) as [_ Hnames]; [done|].
  set (names := remove_loop (map_to_list R) M []) in *.
  assert (Hin : n ∈ names) by (by apply Hnames, elem_of_difference).
  rewrite bool_decide_eq_true_2 by (intros ->; by apply elem_of_nil in Hin).
  unfold OperatorService_RemoveSearchAttributes, request. rewrite Hremove.
  split; [done|]. exists names. split; [done|]. cbn [snd rpcs].
  by rewrite <- app_assoc.
Qed.

Lemma reconcileCustomSearchAttributes_removal_fails_witness :
  let run := reconcileCustomSearchAttributes refused_removal_env scenarioA_namespace
               ready_cluster scenarioA_world in
  run.1 = Some (Wrapf "failed to remove search attributes: "
                  (New Generic "permission denied")) ∧
  ∃ names,
    "Legacy" ∈ names ∧
    rpcs run.2 =
      (rpcs scenarioA_world
       ++ [ListSearchAttributes "orders"; RemoveSearchAttributes "orders" names])%list.
Proof.
  assert (Hres : resolves (CustomSearchAttributes scenarioA_namespace))
    by (apply (bool_decide_unpack _); vm_compute; exact I).
  assert (Hcompat :
            compatible (parse_type <$> CustomSearchAttributes scenarioA_namespace)
              (server_attributes scenarioA_world (GetName scenarioA_namespace)))
    by (apply (bool_decide_unpack _); vm_compute; exact I).
  assert (HnR : "Legacy" ∈ dom (server_attributes scenarioA_world
                                  (GetName scenarioA_namespace)))
    by (apply (bool_decide_unpack _); vm_compute; exact I).
  assert (HnM : "Legacy" ∉ dom (parse_type <$> CustomSearchAttributes scenarioA_namespace))
    by (apply (bool_decide_unpack _); vm_compute; exact I).
  exact (reconcileCustomSearchAttributes_removal_fails refused_removal_env
           scenarioA_namespace ready_cluster scenarioA_world "Legacy" _
           eq_refl eq_refl Hres Hcompat HnR HnM eq_refl).
Defined.



(** ** Connections *)

Lemma filter_ne_app_self (c : nat) (l : list nat) :
  c ∉ l → filter (λ x, x ≠ c) (l ++ [c])%list = l.
Proof.
  intros Hc. rewrite filter_app, filter_cons_False, filter_nil, app_nil_r
    by (intros Hne; by apply Hne).
  induction l as [|x l IH]; [done|].
  apply not_elem_of_cons in Hc as [Hx Hc].
  rewrite filter_cons_True by done. f_equal. by apply IH.
Qed.

(** X8: [ensureNamespaceDeleted] leaves no connection open: when the next
    connection is not already among the open ones, the open connections
    after the call are those before it, on every path, and at most one
    connection has been dialed. *)
Theorem ensureNamespaceDeleted_closes env namespace cluster w :
  dialed w ∉ live w →
  live (ensureNamespaceDeleted env namespace cluster w).2 = live w ∧
  (dialed (ensureNamespaceDeleted env namespace cluster w).2 = dialed w ∨
   dialed (ensureNamespaceDeleted env namespace cluster w).2 = S (dialed w)).
Proof.
  intros Hfresh. unfold ensureNamespaceDeleted.
  destruct (ContainsFinalizer namespace deletionFinalizer); cbn [negb]; [|by auto].
  unfold GetClusterClient, dial.
  destruct (env_client env) as [e|]; [by auto|].
  unfold ensureNamespaceDeleted_withClient, OperatorService_DeleteNamespace, request.
  destruct (env_delete env) as [e|]; [destruct (As NamespaceNotFound e)|];
    cbn [snd Close live dialed]; (split; [by apply filter_ne_app_self|by right]).
Qed.

Lemma ensureNamespaceDeleted_closes_witness :
  (dialed scenarioA_world ∉ live scenarioA_world) ∧
  live (ensureNamespaceDeleted deleting_env deleting_namespace ready_cluster
          scenarioA_world).2 = live scenarioA_world.
Proof.
  assert (Hfresh : dialed scenarioA_world ∉ live scenarioA_world)
    by (apply (bool_decide_unpack _); vm_compute; exact I).
  split; [exact Hfresh|].
  exact (proj1 (ensureNamespaceDeleted_closes deleting_env deleting_namespace
                  ready_cluster scenarioA_world Hfresh)).
Defined.

Lemma reconcileCustomSearchAttributes_connections env namespace cluster w :
  (live (reconcileCustomSearchAttributes env namespace cluster w).2 = live w ∧
   dialed (reconcileCustomSearchAttributes env namespace cluster w).2 = dialed w) ∨
  (live (reconcileCustomSearchAttributes env namespace cluster w).2 =
     (live w ++ [dialed w])%list ∧
   dialed (reconcileCustomSearchAttributes env namespace cluster w).2 = S (dialed w)).
Proof.
  destruct (env_client env) as [e|] eqn:Hdial.
  - left. unfold reconcileCustomSearchAttributes, GetClusterClient, dial.
    by rewrite Hdial.
  - right. by apply reconcileCustomSearchAttributes_live.
Qed.

Lemma Reconcile_withClient_connections env namespace cluster client w :
  (live (Reconcile_withClient env namespace cluster client w).2 = live w ∧
   dialed (Reconcile_withClient env namespace cluster client w).2 = dialed w) ∨
  (live (Reconcile_withClient env namespace cluster client w).2 =
     (live w ++ [dialed w])%list ∧
   dialed (Reconcile_withClient env namespace cluster client w).2 = S (dialed w)).
Proof.
  unfold Reconcile_withClient, Register, Update, request.
  destruct (env_register env) as [e|].
  - destruct (As NamespaceAlreadyExists e); cbn [negb]; [|by left].
    destruct (env_update env); [by left|].
    match goal with
    | |- context [reconcileCustomSearchAttributes env namespace cluster ?w'] =>
        pose proof (reconcileCustomSearchAttributes_connections env namespace cluster w')
          as Hrun;
        destruct (reconcileCustomSearchAttributes env namespace cluster w') as [[?|] ?]
    end; exact Hrun.
  - match goal with
    | |- context [reconcileCustomSearchAttributes env namespace cluster ?w'] =>
        pose proof (reconcileCustomSearchAttributes_connections env namespace cluster w')
          as Hrun;
        destruct (reconcileCustomSearchAttributes env namespace cluster w') as [[?|] ?]
    end; exact Hrun.
Qed.

(** X9: a pass leaves at most one connection open that was not open before
    it: either the open connections are as they were and at most one has
    been dialed, or two have been dialed and the second of them, and nothing
    else, has been added to the open ones. *)
Theorem Reconcile_connections env w :
  dialed w ∉ live w →
  let w' := pass_world (Reconcile env w) in
  (live w' = live w ∧ (dialed w' = dialed w ∨ dialed w' = S (dialed w))) ∨
  (live w' = (live w ++ [S (dialed w)])%list ∧ dialed w' = S (S (dialed w))).
Proof.
  intros Hfresh. unfold Reconcile.
  destruct (env_namespace env) as [namespace|e]; [|destruct (IsNotFound e); by auto].
  destruct (env_helper env); [by auto|].
  unfold Reconcile_body.
  destruct (env_cluster env) as [cluster|e].
  2: { unfold handleError, handleErrorWithRequeue.
       destruct (IsNotFound e && negb (Time_IsZero (DeletionTimestamp namespace)));
         by auto. }
  destruct (IsReady cluster); cbn [negb]; [|by auto].
  destruct (Time_IsZero (DeletionTimestamp namespace)); cbn [negb].
  - unfold GetClusterNamespaceClient, dial.
    destruct (env_namespace_client env) as [e|]; [by auto|].
    match goal with
    | |- context [Reconcile_withClient env ?n cluster ?c ?w1] =>
        pose proof (Reconcile_withClient_connections env n cluster c w1) as Hrun;
        destruct (Reconcile_withClient env n cluster c w1) as [[namespace' outcome] w2]
    end.
    destruct outcome as [result reterr]. cbn [pass_world Close live dialed snd] in *.
    destruct Hrun as [[-> ->]|[-> ->]].
    + left. split; [by apply filter_ne_app_self|by right].
    + right. split; [|done].
      rewrite filter_app, (filter_ne_app_self _ _ Hfresh).
      rewrite filter_cons_True by lia. done.
  - pose proof (ensureNamespaceDeleted_closes env namespace cluster w Hfresh) as [Hlive Hdialed].
    destruct (ensureNamespaceDeleted env namespace cluster w) as [[[e|] namespace'] w2];
      cbn [snd pass_world] in *; left; by auto.
Qed.

Lemma Reconcile_connections_witness :
  (dialed scenarioA_world ∉ live scenarioA_world) ∧
  ((live (pass_world (Reconcile scenarioA_env scenarioA_world)) = live scenarioA_world ∧
    (dialed (pass_world (Reconcile scenarioA_env scenarioA_world)) = dialed scenarioA_world ∨
     dialed (pass_world (Reconcile scenarioA_env scenarioA_world)) =
       S (dialed scenarioA_world))) ∨
   (live (pass_world (Reconcile scenarioA_env scenarioA_world)) =
      (live scenarioA_world ++ [S (dialed scenarioA_world)])%list ∧
    dialed (pass_world (Reconcile scenarioA_env scenarioA_world)) =
      S (S (dialed scenarioA_world)))).
Proof.
  assert (Hfresh : dialed scenarioA_world ∉ live scenarioA_world)
    by (apply (bool_decide_unpack _); vm_compute; exact I).
  split; [exact Hfresh|].
  exact (Reconcile_connections scenarioA_env scenarioA_world Hfresh).
Defined.

(** ** What a pass leaves of the object *)

Lemma framed_refl namespace : framed namespace namespace.
Proof. by repeat split. Qed.

Lemma framed_trans a b c : framed a b → framed b c → framed a c.
Proof.
  unfold framed. intros (? & ? & ? & ? & ?) (? & ? & ? & ? & ?).
  split_and!; congruence.
Qed.

Lemma framed_set_Conditions namespace conditions :
  framed namespace (set_Conditions namespace conditions).
Proof. by repeat split. Qed.

Lemma framed_AddFinalizer namespace :
  framed namespace (AddFinalizer namespace deletionFinalizer).
Proof.
  unfold AddFinalizer. destruct (ContainsFinalizer _ _); [apply framed_refl|].
  repeat split. cbn [Finalizers set_Finalizers].
  rewrite filter_app, filter_cons_False, filter_nil, app_nil_r; [done|].
  intros Hne. by apply Hne.
Qed.

Lemma framed_RemoveFinalizer namespace :
  framed namespace (RemoveFinalizer namespace deletionFinalizer).
Proof.
  repeat split. cbn [Finalizers RemoveFinalizer set_Finalizers].
  induction (Finalizers namespace) as [|f fs IH]; [done|].
  destruct (decide (f ≠ deletionFinalizer)).
  - rewrite !filter_cons_True by done. by rewrite IH.
  - by rewrite !filter_cons_False by done.
Qed.

Lemma framed_ensureFinalizer namespace : framed namespace (ensureFinalizer namespace).
Proof.
  unfold ensureFinalizer.
  destruct (Time_IsZero _ && AllowDeletion _);
    [apply framed_AddFinalizer|apply framed_refl].
Qed.

Lemma framed_handleError namespace reason err :
  framed namespace (handleError namespace reason err).1.
Proof. apply framed_set_Conditions. Qed.

Lemma Reconcile_withClient_framed env namespace cluster client w :
  framed namespace (Reconcile_withClient env namespace cluster client w).1.1.
Proof.
  unfold Reconcile_withClient, Register, Update, request.
  destruct (env_register env) as [e|].
  - destruct (As NamespaceAlreadyExists e); cbn [negb]; [|by repeat split].
    destruct (env_update env); [by repeat split|].
    destruct (reconcileCustomSearchAttributes _ _ _ _) as [[?|] ?]; by repeat split.
  - destruct (reconcileCustomSearchAttributes _ _ _ _) as [[?|] ?]; by repeat split.
Qed.

Lemma ensureNamespaceDeleted_framed env namespace cluster w :
  framed namespace (ensureNamespaceDeleted env namespace cluster w).1.2.
Proof.
  unfold ensureNamespaceDeleted.
  destruct (ContainsFinalizer namespace deletionFinalizer); cbn [negb];
    [|apply framed_refl].
  unfold GetClusterClient, dial.
  destruct (env_client env) as [e|]; [apply framed_refl|].
  unfold ensureNamespaceDeleted_withClient, OperatorService_DeleteNamespace, request.
  destruct (env_delete env) as [e|]; [destruct (As NamespaceNotFound e)|];
    cbn [fst snd]; first [apply framed_RemoveFinalizer|apply framed_refl].
Qed.

Lemma Reconcile_body_framed env namespace w :
  framed namespace (Reconcile_body env namespace w).1.1.
Proof.
  unfold Reconcile_body.
  destruct (env_cluster env) as [cluster|e].
  2: { destruct (IsNotFound e && negb (Time_IsZero (DeletionTimestamp namespace)));
         [apply framed_RemoveFinalizer|apply framed_handleError]. }
  destruct (IsReady cluster); cbn [negb]; [|apply framed_refl].
  destruct (Time_IsZero (DeletionTimestamp namespace)); cbn [negb].
  - unfold GetClusterNamespaceClient, dial.
    destruct (env_namespace_client env) as [e|].
    + eapply framed_trans; [apply framed_ensureFinalizer|apply framed_handleError].
    + match goal with
      | |- context [Reconcile_withClient env ?n cluster ?c ?w1] =>
          pose proof (Reconcile_withClient_framed env n cluster c w1) as Hrun;
          destruct (Reconcile_withClient env n cluster c w1) as [[namespace' outcome] w2]
      end.
      eapply framed_trans; [apply framed_ensureFinalizer|exact Hrun].
  - pose proof (ensureNamespaceDeleted_framed env namespace cluster w) as Hrun.
    destruct (ensureNamespaceDeleted env namespace cluster w) as [[[e|] namespace'] w2];
      cbn [fst snd] in *; [|done].
    eapply framed_trans; [exact Hrun|apply framed_handleError].
Qed.

(** X10: a pass changes nothing of the object it loaded but its conditions
    and the presence of the deletion finalizer: the object handed to the
    patch has the name, the deletion timestamp, the allow-deletion flag and
    the declared attributes of the loaded one, and the other controllers'
    finalizers in their order. *)
Theorem Reconcile_framed env w namespace namespace' :
  env_namespace env = inl namespace →
  pass_object (Reconcile env w) = Some namespace' →
  framed namespace namespace'.
Proof.
  intros Hns. unfold Reconcile. rewrite Hns.
  destruct (env_helper env); [done|].
  pose proof (Reconcile_body_framed env namespace w) as Hbody.
  destruct (Reconcile_body env namespace w) as [[namespace0 [result reterr]] w'].
  cbn [pass_object]. by intros [= <-].
Qed.

Lemma Reconcile_framed_witness :
  env_namespace retained_env = inl retained_namespace ∧
  ∃ namespace',
    pass_object (Reconcile retained_env scenarioA_world) = Some namespace' ∧
    framed retained_namespace namespace'.
Proof.
  split; [reflexivity|]. eexists. split; [by vm_compute|].
  apply (Reconcile_framed retained_env scenarioA_world retained_namespace _ eq_refl).
  by vm_compute.
Defined.

(** ** What a pass returns *)

Lemma Reconcile_withClient_outcome env namespace cluster client w :
  (Reconcile_withClient env namespace cluster client w).1.2 = (Result_zero, None).
Proof.
  unfold Reconcile_withClient, Register, Update, request.
  destruct (env_register env) as [e|].
  - destruct (As NamespaceAlreadyExists e); cbn [negb]; [|done].
    destruct (env_update env); [done|].
    by destruct (reconcileCustomSearchAttributes _ _ _ _) as [[?|] ?].
  - by destruct (reconcileCustomSearchAttributes _ _ _ _) as [[?|] ?].
Qed.

Lemma Reconcile_body_outcome env namespace w :
  (Reconcile_body env namespace w).1.2 =
  (match env_cluster env with
   | inl cluster =>
     if IsReady cluster then Result_zero
     else {| Requeue := false; RequeueAfter := 10 * Second |}
   | inr _ => Result_zero
   end, None).
Proof.
  unfold Reconcile_body.
  destruct (env_cluster env) as [cluster|e].
  2: { by destruct (IsNotFound e && negb (Time_IsZero (DeletionTimestamp namespace))). }
  destruct (IsReady cluster); cbn [negb]; [|done].
  destruct (Time_IsZero (DeletionTimestamp namespace)); cbn [negb].
  - unfold GetClusterNamespaceClient, dial.
    destruct (env_namespace_client env) as [e|]; [done|].
    match goal with
    | |- context [Reconcile_withClient env ?n cluster ?c ?w1] =>
        pose proof (Reconcile_withClient_outcome env n cluster c w1) as Hrun;
        destruct (Reconcile_withClient env n cluster c w1) as [[namespace' outcome] w2]
    end.
    exact Hrun.
  - by destruct (ensureNamespaceDeleted env namespace cluster w)
      as [[[e|] namespace'] w2].
Qed.

(** X11: what a pass returns.  The error is the load's unless it is a
    not-found, else the patch helper's, else an aggregate of the patch's
    alone: no error of the cluster lookup or of a remote call is returned.
    The result asks for a requeue after ten seconds exactly when the object
    and the patch helper were obtained and the cluster was found and is not
    ready, and is the zero result otherwise. *)
Theorem Reconcile_returns env w :
  pass_err (Reconcile env w) =
    match env_namespace env with
    | inr err => if IsNotFound err then None else Some err
    | inl _ =>
      match env_helper env with
      | Some err => Some err
      | None =>
        match env_patch env with
        | Some err => Some (Aggregate [err])
        | None => None
        end
      end
    end ∧
  pass_result (Reconcile env w) =
    match env_namespace env, env_helper env, env_cluster env with
    | inl _, None, inl cluster =>
      if IsReady cluster then Result_zero
      else {| Requeue := false; RequeueAfter := 10 * Second |}
    | _, _, _ => Result_zero
    end.
Proof.
  unfold Reconcile.
  destruct (env_namespace env) as [namespace|e]; [|by destruct (IsNotFound e)].
  destruct (env_helper env); [done|].
  pose proof (Reconcile_body_outcome env namespace w) as Hbody.
  destruct (Reconcile_body env namespace w) as [[namespace0 [result reterr]] w'].
  cbn [fst snd pass_err pass_result] in *. injection Hbody as -> ->.
  split; [by destruct (env_patch env)|]. by destruct (env_cluster env).
Qed.

(** ** The Ready condition *)

Lemma ensureFinalizer_reads namespace :
  GetName (ensureFinalizer namespace) = GetName namespace ∧
  CustomSearchAttributes (ensureFinalizer namespace) = CustomSearchAttributes namespace ∧
  ns_Conditions (ensureFinalizer namespace) = ns_Conditions namespace.
Proof.
  unfold ensureFinalizer, AddFinalizer.
  by destruct (Time_IsZero _ && AllowDeletion _),
       (ContainsFinalizer namespace deletionFinalizer).
Qed.

Lemma Ready_ne_ReconcileError : ReconcileErrorCondition ≠ ReadyCondition.
Proof. done. Qed.

Lemma Ready_ne_ReconcileSuccess : ReconcileSuccessCondition ≠ ReadyCondition.
Proof. done. Qed.

(** The Ready condition after the part of the pass that holds the namespace
    client: as before, or True with the server's mapping converged. *)
Lemma Reconcile_withClient_Ready env namespace cluster client w :
  let run := Reconcile_withClient env namespace cluster client w in
  ns_Conditions run.1.1 !! ReadyCondition = ns_Conditions namespace !! ReadyCondition ∨
  (ns_Conditions run.1.1 !! ReadyCondition =
     Some {| cond_Status := ConditionTrue;
             cond_Reason := TemporalNamespaceCreatedReason;
             cond_Message := "Namespace successfully created" |} ∧
   server_attributes run.2 (GetName namespace) =
     parse_type <$> CustomSearchAttributes namespace).
Proof.
  assert (Herror : ∀ reason err,
            ns_Conditions (handleError namespace reason err).1 !! ReadyCondition =
            ns_Conditions namespace !! ReadyCondition).
  { intros reason err. unfold handleError, handleErrorWithRequeue,
      SetTemporalNamespaceReconcileError, setCondition.
    cbn [fst ns_Conditions set_Conditions].
    by rewrite lookup_insert_ne by apply Ready_ne_ReconcileError. }
  assert (Hconverge : ∀ w1 : World,
            let run := reconcileCustomSearchAttributes env namespace cluster w1 in
            ns_Conditions
              (match run with
               | (Some err, w) => (handleError namespace ReconcileErrorReason err, w)
               | (None, w) =>
                 (handleSuccess
                    (SetTemporalNamespaceReady namespace ConditionTrue
                       TemporalNamespaceCreatedReason "Namespace successfully created"), w)
               end).1.1 !! ReadyCondition = ns_Conditions namespace !! ReadyCondition ∨
            (ns_Conditions
               (match run with
                | (Some err, w) => (handleError namespace ReconcileErrorReason err, w)
                | (None, w) =>
                  (handleSuccess
                     (SetTemporalNamespaceReady namespace ConditionTrue
                        TemporalNamespaceCreatedReason "Namespace successfully created"), w)
                end).1.1 !! ReadyCondition =
               Some {| cond_Status := ConditionTrue;
                       cond_Reason := TemporalNamespaceCreatedReason;
                       cond_Message := "Namespace successfully created" |} ∧
             server_attributes
               (match run with
                | (Some err, w) => (handleError namespace ReconcileErrorReason err, w)
                | (None, w) =>
                  (handleSuccess
                     (SetTemporalNamespaceReady namespace ConditionTrue
                        TemporalNamespaceCreatedReason "Namespace successfully created"), w)
                end).2 (GetName namespace) =
               parse_type <$> CustomSearchAttributes namespace)).
  { intros w1 run. subst run.
    destruct (reconcileCustomSearchAttributes env namespace cluster w1)
      as [[e|] w2] eqn:Hrun.
    - left. apply Herror.
    - right. split.
      + unfold handleSuccess, handleSuccessWithRequeue,
          SetTemporalNamespaceReconcileSuccess, SetTemporalNamespaceReady, setCondition.
        cbn [fst ns_Conditions set_Conditions].
        rewrite lookup_insert_ne by apply Ready_ne_ReconcileSuccess.
        by rewrite lookup_insert_eq.
      + exact (proj1 (reconcileCustomSearchAttributes_success_post _ _ _ _ _ Hrun)). }
  intros run. subst run.
  unfold Reconcile_withClient, Register, Update, request.
  destruct (env_register env) as [e|].
  - destruct (As NamespaceAlreadyExists e); cbn [negb]; [|left; apply Herror].
    destruct (env_update env); [left; apply Herror|]. apply Hconverge.
  - apply Hconverge.
Qed.

(** X12: a pass that changes the Ready condition of the object sets it to
    true with the created reason, and then the server's mapping for the
    namespace is the declared one. *)
Theorem Reconcile_ready_converged env w namespace namespace' :
  env_namespace env = inl namespace →
  pass_object (Reconcile env w) = Some namespace' →
  ns_Conditions namespace' !! ReadyCondition ≠ ns_Conditions namespace !! ReadyCondition →
  ns_Conditions namespace' !! ReadyCondition =
    Some {| cond_Status := ConditionTrue;
            cond_Reason := TemporalNamespaceCreatedReason;
            cond_Message := "Namespace successfully created" |} ∧
  server_attributes (pass_world (Reconcile env w)) (GetName namespace) =
    parse_type <$> CustomSearchAttributes namespace.
Proof.
  intros Hns. unfold Reconcile. rewrite Hns.
  destruct (env_helper env); [done|].
  unfold Reconcile_body.
  destruct (ensureFinalizer_reads namespace) as (Hname & Hattrs & Hconds).
  destruct (env_cluster env) as [cluster|e].
  2: { destruct (IsNotFound e && negb (Time_IsZero (DeletionTimestamp namespace)));
         cbn [pass_object]; intros [= <-] Hchanged; exfalso; apply Hchanged; [done|].
       unfold handleError, handleErrorWithRequeue, SetTemporalNamespaceReconcileError,
         setCondition. cbn [fst ns_Conditions set_Conditions].
       by rewrite lookup_insert_ne by apply Ready_ne_ReconcileError. }
  destruct (IsReady cluster); cbn [negb].
  2: { cbn [pass_object]. intros [= <-] Hchanged. by exfalso. }
  destruct (Time_IsZero (DeletionTimestamp namespace)); cbn [negb].
  - unfold GetClusterNamespaceClient, dial.
    destruct (env_namespace_client env) as [e|].
    { cbn [pass_object]. intros [= <-] Hchanged. exfalso. apply Hchanged.
      unfold handleError, handleErrorWithRequeue, SetTemporalNamespaceReconcileError,
        setCondition. cbn [fst ns_Conditions set_Conditions].
      rewrite lookup_insert_ne by apply Ready_ne_ReconcileError. by rewrite Hconds. }
    match goal with
    | |- context [Reconcile_withClient env ?n cluster ?c ?w1] =>
        pose proof (Reconcile_withClient_Ready env n cluster c w1) as Hrun;
        destruct (Reconcile_withClient env n cluster c w1) as [[namespace0 outcome] w2]
    end.
    destruct outcome as [result reterr]. cbn [pass_object pass_world fst snd] in *.
    intros [= <-] Hchanged. rewrite Hname, Hattrs, Hconds in Hrun.
    destruct Hrun as [Hsame|[Hready Hserver]]; [by exfalso|]. done.
  - unfold ensureNamespaceDeleted.
    destruct (ContainsFinalizer namespace deletionFinalizer); cbn [negb].
    2: { cbn [pass_object]. intros [= <-] Hchanged. by exfalso. }
    unfold GetClusterClient, dial.
    destruct (env_client env) as [e|].
    { cbn [pass_object]. intros [= <-] Hchanged. exfalso. apply Hchanged.
      unfold handleError, handleErrorWithRequeue, SetTemporalNamespaceReconcileError,
        setCondition. cbn [fst ns_Conditions set_Conditions].
      by rewrite lookup_insert_ne by apply Ready_ne_ReconcileError. }
    unfold ensureNamespaceDeleted_withClient, OperatorService_DeleteNamespace, request.
    destruct (env_delete env) as [e|]; [destruct (As NamespaceNotFound e)|];
      cbn [pass_object]; intros [= <-] Hchanged; exfalso; apply Hchanged; try done.
    unfold handleError, handleErrorWithRequeue, SetTemporalNamespaceReconcileError,
      setCondition. cbn [fst ns_Conditions set_Conditions].
    by rewrite lookup_insert_ne by apply Ready_ne_ReconcileError.
Qed.

Lemma Reconcile_ready_converged_witness :
  env_namespace scenarioA_env = inl scenarioA_namespace ∧
  ∃ namespace',
    pass_object (Reconcile scenarioA_env scenarioA_world) = Some namespace' ∧
    ns_Conditions namespace' !! ReadyCondition ≠
      ns_Conditions scenarioA_namespace !! ReadyCondition ∧
    server_attributes (pass_world (Reconcile scenarioA_env scenarioA_world))
      (GetName scenarioA_namespace) =
      parse_type <$> CustomSearchAttributes scenarioA_namespace.
Proof.
  split; [reflexivity|].
  pose (namespace' := default scenarioA_namespace
                        (pass_object (Reconcile scenarioA_env scenarioA_world))).
  assert (Hobject : pass_object (Reconcile scenarioA_env scenarioA_world) =
                    Some namespace') by (vm_compute; reflexivity).
  assert (Hchanged : ns_Conditions namespace' !! ReadyCondition ≠
                     ns_Conditions scenarioA_namespace !! ReadyCondition)
    by (vm_compute; discriminate).
  exists namespace'. split; [exact Hobject|]. split; [exact Hchanged|].
  exact (proj2 (Reconcile_ready_converged scenarioA_env scenarioA_world
                  scenarioA_namespace namespace' eq_refl Hobject Hchanged)).
Defined.

(** ** Deletion *)

(** X13: a pass over an object under deletion that carries the finalizer,
    with its cluster ready.  The finalizer is gone after the pass exactly
    when the dial succeeded and the delete request succeeded or failed with
    a not-found, and then the object is otherwise as loaded.  A failed dial
    leaves the remote world as it was, and a delete request that fails
    otherwise leaves the finalizer; each records its wrapped error in the
    ReconcileError condition. *)
Theorem Reconcile_deletion_outcome env w namespace cluster :
  env_namespace env = inl namespace → env_helper env = None →
  env_cluster env = inl cluster → IsReady cluster = true →
  Time_IsZero (DeletionTimestamp namespace) = false →
  has_finalizer namespace = true →
  ∃ namespace',
    pass_object (Reconcile env w) = Some namespace' ∧
    (has_finalizer namespace' = false ↔
       env_client env = None ∧
       (env_delete env = None ∨
        ∃ err, env_delete env = Some err ∧ As NamespaceNotFound err = true)) ∧
    (has_finalizer namespace' = false →
       namespace' = RemoveFinalizer namespace deletionFinalizer) ∧
    (∀ err, env_client env = Some err →
       pass_world (Reconcile env w) = w ∧
       namespace' =
         SetTemporalNamespaceReconcileError namespace ConditionTrue ReconcileErrorReason
           (Error (Wrapf "can't create cluster client: " err))) ∧
    (∀ err, env_client env = None → env_delete env = Some err →
       As NamespaceNotFound err = false →
       namespace' =
         SetTemporalNamespaceReconcileError namespace ConditionTrue ReconcileErrorReason
           (Error (Wrapf ("can't delete " +:+ GoStrings.dquote +:+ GetName namespace
                          +:+ GoStrings.dquote +:+ " namespace: ") err))).
Proof.
  intros Hns Hhelper Hcluster Hready Hts Hfin.
  unfold Reconcile. rewrite Hns, Hhelper.
  unfold Reconcile_body. rewrite Hcluster, Hready, Hts. cbn [negb].
  unfold ensureNamespaceDeleted.
  unfold has_finalizer in Hfin. rewrite Hfin. cbn [negb].
  unfold GetClusterClient, dial.
  pose proof (has_finalizer_RemoveFinalizer namespace) as Hremoved.
  destruct (env_client env) as [e|].
  { eexists. split; [done|]. cbn [fst handleError handleErrorWithRequeue].
    rewrite has_finalizer_SetTemporalNamespaceReconcileError.
    unfold has_finalizer. rewrite Hfin.
    split; [split; [done|by intros [? _]]|].
    split; [done|]. split; [|done].
    intros err [= <-]. by rewrite decide_False by done. }
  unfold ensureNamespaceDeleted_withClient, OperatorService_DeleteNamespace, request.
  destruct (env_delete env) as [e|].
  - destruct (As NamespaceNotFound e) eqn:Has.
    + eexists. split; [done|]. cbn [pass_object].
      split; [split; [intros _; split; [done|right; by exists e]|done]|].
      split; [done|]. split; [done|].
      intros err _ [= <-]. by rewrite Has.
    + eexists. split; [done|]. cbn [fst handleError handleErrorWithRequeue].
      rewrite has_finalizer_SetTemporalNamespaceReconcileError.
      unfold has_finalizer. rewrite Hfin.
      split.
      { split; [done|]. intros [_ [?|(err & [= <-] & Herr)]]; [done|].
        by rewrite Has in Herr. }
      split; [done|]. split; [done|].
      intros err _ [= <-] _. by rewrite decide_False by done.
  - eexists. split; [done|]. cbn [pass_object].
    split; [split; [intros _; split; [done|by left]|done]|].
    split; [done|]. split; done.
Qed.

Lemma Reconcile_deletion_outcome_witness :
  ∃ namespace',
    pass_object (Reconcile refused_deletion_env scenarioA_world) = Some namespace' ∧
    has_finalizer namespace' = true ∧
    ns_Conditions namespace' !! ReconcileErrorCondition =
      Some {| cond_Status := ConditionTrue; cond_Reason := ReconcileErrorReason;
              cond_Message := "can't delete " +:+ GoStrings.dquote +:+ "orders"
                              +:+ GoStrings.dquote
                              +:+ " namespace: permission denied" |}.
Proof.
  destruct (Reconcile_deletion_outcome refused_deletion_env scenarioA_world
              deleting_namespace ready_cluster eq_refl eq_refl eq_refl eq_refl eq_refl
              eq_refl) as (namespace' & Hobject & _ & _ & _ & Hrefused).
  exists namespace'. split; [exact Hobject|].
  rewrite (Hrefused _ eq_refl eq_refl eq_refl). clear. by vm_compute.
Defined.

Lemma filter_eq_absent (f : string) (l : list string) :
  f ∉ l → filter (λ g, g = f) l = [].
Proof.
  induction l as [|g l IH]; [done|].
  intros Hf. apply not_elem_of_cons in Hf as [Hne Hf].
  rewrite filter_cons_False by (intros ->; done). by apply IH.
Qed.

(** X14: [ensureFinalizer] is idempotent and adds the deletion finalizer at
    most once: a second call changes nothing, finalizers without duplicates
    stay so, and the finalizer occurs afterwards as often as before when it
    was present, once when it was absent and is added, and not at all
    otherwise. *)
Theorem ensureFinalizer_idempotent namespace :
  ensureFinalizer (ensureFinalizer namespace) = ensureFinalizer namespace ∧
  (NoDup (Finalizers namespace) → NoDup (Finalizers (ensureFinalizer namespace))) ∧
  length (filter (λ f, f = deletionFinalizer) (Finalizers (ensureFinalizer namespace))) =
    if has_finalizer namespace
    then length (filter (λ f, f = deletionFinalizer) (Finalizers namespace))
    else if Time_IsZero (DeletionTimestamp namespace) && AllowDeletion namespace
         then 1%nat else 0%nat.
Proof.
  unfold ensureFinalizer, has_finalizer, AddFinalizer.
  destruct (Time_IsZero (DeletionTimestamp namespace) && AllowDeletion namespace) eqn:Hguard.
  - destruct (ContainsFinalizer namespace deletionFinalizer) eqn:Hc.
    + by rewrite Hguard, Hc.
    + assert (Hguard' :
        Time_IsZero (DeletionTimestamp
          (set_Finalizers namespace (Finalizers namespace ++ [deletionFinalizer])%list))
        && AllowDeletion
          (set_Finalizers namespace (Finalizers namespace ++ [deletionFinalizer])%list)
        = true) by exact Hguard.
      rewrite Hguard'.
      pose proof (has_finalizer_AddFinalizer namespace) as Hadded.
      unfold has_finalizer, AddFinalizer in Hadded. rewrite Hc in Hadded.
      rewrite Hadded. split; [done|].
      apply bool_decide_eq_false_1 in Hc. cbn [Finalizers set_Finalizers].
      split.
      * intros Hnodup. apply NoDup_app. split; [done|].
        split; [|apply NoDup_singleton].
        intros f Hf ->%list_elem_of_singleton. done.
      * rewrite filter_app, length_app.
        by rewrite (filter_eq_absent _ _ Hc).
  - rewrite Hguard. split; [done|]. split; [done|].
    destruct (ContainsFinalizer namespace deletionFinalizer) eqn:Hc; [done|].
    apply bool_decide_eq_false_1 in Hc.
    by rewrite (filter_eq_absent _ _ Hc).
Qed.

(** ** The requests of a pass *)

Lemma reconcileCustomSearchAttributes_sent env namespace cluster w :
  ∃ names attrs added,
    rpcs (reconcileCustomSearchAttributes env namespace cluster w).2 =
      (rpcs w ++ added)%list ∧
    added `sublist_of`
      [ ListSearchAttributes (GetName namespace);
        RemoveSearchAttributes (GetName namespace) names;
        AddSearchAttributes (GetName namespace) attrs ].
Proof.
  unfold reconcileCustomSearchAttributes, GetClusterClient, dial.
  destruct (env_client env) as [e|].
  { exists [], ∅, []. rewrite app_nil_r. split; [done|apply sublist_nil_l]. }
  unfold OperatorService_ListSearchAttributes, request.
  destruct (env_list env) as [e|].
  { exists [], ∅. eexists. split; [reflexivity|]. apply sublist_skip, sublist_nil_l. }
  destruct (translate_loop _ ∅) as [M|e].
  2: { exists [], ∅. eexists. split; [reflexivity|]. apply sublist_skip, sublist_nil_l. }
  destruct (add_loop _ _ ∅) as [A|e].
  2: { exists [], ∅. eexists. split; [reflexivity|]. apply sublist_skip, sublist_nil_l. }
  unfold OperatorService_RemoveSearchAttributes, OperatorService_AddSearchAttributes, request.
  match goal with
  | |- context [(0 <? length ?names)%nat] => exists names, A
  end.
  destruct (0 <? length _)%nat, (0 <? size A)%nat,
    (env_remove env) as [e1|], (env_add env) as [e2|];
    cbn [snd rpcs]; eexists; (split; [rewrite <- ?app_assoc; reflexivity|]);
    cbn [app]; eauto 10 using sublist_nil, sublist_cons, sublist_skip.
Qed.

Lemma Reconcile_withClient_sent env namespace cluster client w :
  ∃ names attrs rest,
    rpcs (Reconcile_withClient env namespace cluster client w).2 =
      (rpcs w ++ RegisterNamespace (GetName namespace) :: rest)%list ∧
    rest `sublist_of`
      [ UpdateNamespace (GetName namespace);
        ListSearchAttributes (GetName namespace);
        RemoveSearchAttributes (GetName namespace) names;
        AddSearchAttributes (GetName namespace) attrs ].
Proof.
  assert (Hconverge : ∀ w1 : World,
            ∃ names attrs added,
              rpcs (match reconcileCustomSearchAttributes env namespace cluster w1 with
                    | (Some err, w) => (handleError namespace ReconcileErrorReason err, w)
                    | (None, w) =>
                      (handleSuccess
                         (SetTemporalNamespaceReady namespace ConditionTrue
                            TemporalNamespaceCreatedReason
                            "Namespace successfully created"), w)
                    end).2 = (rpcs w1 ++ added)%list ∧
              added `sublist_of`
                [ ListSearchAttributes (GetName namespace);
                  RemoveSearchAttributes (GetName namespace) names;
                  AddSearchAttributes (GetName namespace) attrs ]).
  { intros w1.
    destruct (reconcileCustomSearchAttributes_sent env namespace cluster w1)
      as (names & attrs & added & Hlog & Hsub).
    exists names, attrs, added. split; [|done].
    by destruct (reconcileCustomSearchAttributes env namespace cluster w1) as [[?|] ?]. }
  unfold Reconcile_withClient, Register, Update, request.
  destruct (env_register env) as [e|].
  - destruct (As NamespaceAlreadyExists e); cbn [negb].
    2: { exists [], ∅, []. split; [done|apply sublist_nil_l]. }
    destruct (env_update env).
    { exists [], ∅. eexists. cbn [snd rpcs]. rewrite <- app_assoc.
      split; [reflexivity|]. apply sublist_skip, sublist_nil_l. }
    match goal with
    | |- context [reconcileCustomSearchAttributes env namespace cluster ?w1] =>
        destruct (Hconverge w1) as (names & attrs & added & -> & Hsub)
    end.
    exists names, attrs. eexists. cbn [rpcs]. rewrite <- !app_assoc.
    split; [reflexivity|]. by apply sublist_skip.
  - match goal with
    | |- context [reconcileCustomSearchAttributes env namespace cluster ?w1] =>
        destruct (Hconverge w1) as (names & attrs & added & -> & Hsub)
    end.
    exists names, attrs. eexists. cbn [rpcs]. rewrite <- !app_assoc.
    split; [reflexivity|]. by apply sublist_cons.
Qed.

(** X15: the requests of a pass.  A pass adds to the log of requests nothing,
    or, with the cluster found and ready: under a deletion timestamp the
    delete request alone, and only for an object that carries the finalizer;
    without one the register request first, followed by a selection, in
    this order, of the update request, the list request, one removal request
    and one addition request. *)
Theorem Reconcile_requests env w :
  ∃ added,
    rpcs (pass_world (Reconcile env w)) = (rpcs w ++ added)%list ∧
    (added = [] ∨
     ∃ namespace cluster,
       env_namespace env = inl namespace ∧ env_cluster env = inl cluster ∧
       IsReady cluster = true ∧
       if Time_IsZero (DeletionTimestamp namespace)
       then ∃ names attrs rest,
              added = RegisterNamespace (GetName namespace) :: rest ∧
              rest `sublist_of`
                [ UpdateNamespace (GetName namespace);
                  ListSearchAttributes (GetName namespace);
                  RemoveSearchAttributes (GetName namespace) names;
                  AddSearchAttributes (GetName namespace) attrs ]
       else added = [DeleteNamespace (GetName namespace)] ∧
            has_finalizer namespace = true).
Proof.
  assert (Hnone : ∀ calls : list RemoteCall,
            ∃ added, calls = (calls ++ added)%list ∧
              (added = [] ∨
               ∃ namespace cluster,
                 env_namespace env = inl namespace ∧ env_cluster env = inl cluster ∧
                 IsReady cluster = true ∧
                 if Time_IsZero (DeletionTimestamp namespace)
                 then ∃ names attrs rest,
                        added = RegisterNamespace (GetName namespace) :: rest ∧
                        rest `sublist_of`
                          [ UpdateNamespace (GetName namespace);
                            ListSearchAttributes (GetName namespace);
                            RemoveSearchAttributes (GetName namespace) names;
                            AddSearchAttributes (GetName namespace) attrs ]
                 else added = [DeleteNamespace (GetName namespace)] ∧
                      has_finalizer namespace = true)).
  { intros calls. exists []. rewrite app_nil_r. by auto. }
  unfold Reconcile.
  destruct (env_namespace env) as [namespace|e] eqn:Hns;
    [|destruct (IsNotFound e); apply Hnone].
  destruct (env_helper env); [apply Hnone|].
  unfold Reconcile_body.
  destruct (env_cluster env) as [cluster|e] eqn:Hcluster.
  2: { destruct (IsNotFound e && negb (Time_IsZero (DeletionTimestamp namespace)));
         apply Hnone. }
  destruct (IsReady cluster) eqn:Hready; cbn [negb]; [|apply Hnone].
  destruct (Time_IsZero (DeletionTimestamp namespace)) eqn:Hts; cbn [negb].
  - unfold GetClusterNamespaceClient, dial.
    destruct (env_namespace_client env) as [e|]; [apply Hnone|].
    match goal with
    | |- context [Reconcile_withClient env ?n cluster ?c ?w1] =>
        destruct (Reconcile_withClient_sent env n cluster c w1)
          as (names & attrs & rest & Hlog & Hsub);
        destruct (Reconcile_withClient env n cluster c w1) as [[namespace' outcome] w2]
    end.
    destruct outcome as [result reterr]. cbn [pass_world snd rpcs Close] in *.
    rewrite GetName_ensureFinalizer in Hlog, Hsub.
    eexists. split; [exact Hlog|]. right. exists namespace, cluster.
    rewrite Hts. split_and!; [done..|]. by exists names, attrs, rest.
  - unfold ensureNamespaceDeleted.
    destruct (ContainsFinalizer namespace deletionFinalizer) eqn:Hfin; cbn [negb];
      [|apply Hnone].
    unfold GetClusterClient, dial.
    destruct (env_client env) as [e|]; [apply Hnone|].
    unfold ensureNamespaceDeleted_withClient, OperatorService_DeleteNamespace, request.
    exists [DeleteNamespace (GetName namespace)]. split.
    + by destruct (env_delete env) as [e|]; [destruct (As NamespaceNotFound e)|].
    + right. exists namespace, cluster. rewrite Hts. by split_and!.
Qed.

(** ** The dependency propagator *)

Lemma mapfunc_loop_filter items cluster result :
  mapfunc_loop items cluster result =
  (result ++
   map (λ namespace, {| request_NamespacedName := ObjectKeyFromObject namespace |})
     (filter (λ namespace, NamespacedName (ClusterRef namespace) namespace =
                           ObjectKeyFromCluster cluster) items))%list.
Proof.
  revert result. induction items as [|namespace items IH]; intros result.
  { by rewrite app_nil_r. }
  cbn [mapfunc_loop].
  destruct (decide (NamespacedName (ClusterRef namespace) namespace ≠
                    ObjectKeyFromCluster cluster)) as [Hkey|Hkey].
  - rewrite filter_cons_False by done. apply IH.
  - apply dec_stable in Hkey. rewrite filter_cons_True by done.
    rewrite IH. by rewrite <- app_assoc.
Qed.

(** X16: when the list call succeeds and the cluster has a name,
    [clusterToNamespacesMapfunc] returns a request for exactly the
    namespaces of the store whose cluster reference resolves to the
    cluster's key, in the store's order: the index on the referenced name
    loses none of them. *)
Theorem clusterToNamespacesMapfunc_requests store cluster :
  store_list store = None → cluster_Name cluster ≠ EmptyString →
  clusterToNamespacesMapfunc store (ClusterObject cluster) =
  map (λ namespace, {| request_NamespacedName := ObjectKeyFromObject namespace |})
    (filter (λ namespace, NamespacedName (ClusterRef namespace) namespace =
                          ObjectKeyFromCluster cluster)
       (store_namespaces store)).
Proof.
  intros Hlist Hname. unfold clusterToNamespacesMapfunc, List_by_clusterRef.
  rewrite Hlist, mapfunc_loop_filter. cbn [app]. f_equal.
  rewrite list_filter_filter. apply list_filter_iff. intros namespace.
  split; [by intros [? _]|]. intros Hkey. split; [done|].
  assert (Href : ref_Name (ClusterRef namespace) = cluster_Name cluster)
    by exact (f_equal key_Name Hkey).
  unfold clusterRefIndex. rewrite Href. rewrite decide_False by done.
  apply list_elem_of_here.
Qed.

Lemma clusterToNamespacesMapfunc_requests_witness :
  clusterToNamespacesMapfunc sample_store (ClusterObject ready_cluster) =
  [ {| request_NamespacedName := {| key_Namespace := "temporal"; key_Name := "orders" |} |};
    {| request_NamespacedName := {| key_Namespace := "apps"; key_Name := "billing" |} |} ].
Proof.
  rewrite (clusterToNamespacesMapfunc_requests sample_store ready_cluster eq_refl);
    [|done].
  by vm_compute.
Defined.

(** X17: every request [clusterToNamespacesMapfunc] returns is for a
    namespace of the store whose cluster reference resolves to the key of the
    cluster handed in, and none is returned for an object of another kind or
    when the list call fails; there are at most as many requests as
    namespaces, and no request twice when no two namespaces share a key. *)
Theorem clusterToNamespacesMapfunc_sound store o :
  (∀ request, request ∈ clusterToNamespacesMapfunc store o →
     ∃ cluster namespace,
       o = ClusterObject cluster ∧ store_list store = None ∧
       namespace ∈ store_namespaces store ∧
       request = {| request_NamespacedName := ObjectKeyFromObject namespace |} ∧
       NamespacedName (ClusterRef namespace) namespace = ObjectKeyFromCluster cluster) ∧
  (length (clusterToNamespacesMapfunc store o) ≤ length (store_namespaces store))%nat ∧
  (NoDup (ObjectKeyFromObject <$> store_namespaces store) →
   NoDup (clusterToNamespacesMapfunc store o)).
Proof.
  unfold clusterToNamespacesMapfunc, List_by_clusterRef.
  destruct o as [cluster|].
  2: { split; [by intros ? ?%elem_of_nil|]. split; [cbn; lia|]. intros _. apply NoDup_nil_2. }
  destruct (store_list store).
  { split; [by intros ? ?%elem_of_nil|]. split; [cbn; lia|]. intros _. apply NoDup_nil_2. }
  rewrite mapfunc_loop_filter. cbn [app]. rewrite list_filter_filter.
  split; [|split].
  - intros request (namespace & -> & Hin)%list_elem_of_fmap.
    apply list_elem_of_filter in Hin as [[Hkey _] Hin].
    by exists cluster, namespace.
  - rewrite length_map. apply length_filter.
  - intros Hnodup.
    assert (Hrequests :
      map (λ namespace, {| request_NamespacedName := ObjectKeyFromObject namespace |})
        (filter (λ namespace,
                   NamespacedName (ClusterRef namespace) namespace =
                     ObjectKeyFromCluster cluster ∧
                   cluster_Name cluster ∈ clusterRefIndex namespace)
           (store_namespaces store)) =
      Build_Request <$>
        (ObjectKeyFromObject <$>
           filter (λ namespace,
                     NamespacedName (ClusterRef namespace) namespace =
                       ObjectKeyFromCluster cluster ∧
                     cluster_Name cluster ∈ clusterRefIndex namespace)
             (store_namespaces store))).
    { by rewrite <- list_fmap_compose. }
    rewrite Hrequests. apply NoDup_fmap_2; [by intros ? ? [= ->]|].
    clear Hrequests.
    induction (store_namespaces store) as [|namespace items IH]; [apply NoDup_nil_2|].
    rewrite fmap_cons in Hnodup. apply NoDup_cons in Hnodup as [Hfresh Hnodup].
    destruct (decide (NamespacedName (ClusterRef namespace) namespace =
                        ObjectKeyFromCluster cluster ∧
                      cluster_Name cluster ∈ clusterRefIndex namespace)) as [Hp|Hp].
    + rewrite filter_cons_True by done. rewrite fmap_cons. apply NoDup_cons.
      split; [|by apply IH].
      intros (other & Hkey & Hin)%list_elem_of_fmap. apply Hfresh.
      apply list_elem_of_fmap. exists other. split; [done|].
      by apply list_elem_of_filter in Hin as [_ Hin].
    + rewrite filter_cons_False by done. by apply IH.
Qed.

(** ** The service builders *)

Lemma Merge_idem (labels : gmap string string) : Merge labels labels = labels.
Proof. unfold Merge. apply map_union_idemp. Qed.

Lemma Merge_absorb (built extra : gmap string string) :
  Merge (Merge (Merge built extra) built) extra = Merge built extra.
Proof.
  unfold Merge. apply map_eq. intros k. rewrite !lookup_union.
  by destruct (extra !! k), (built !! k).
Qed.

Lemma reconcileDefaults_Services cluster :
  ∃ frontend history matching worker,
    Services (Spec (reconcileDefaults cluster).1) =
      Some {| Frontend := Some frontend; History := Some history;
              Matching := Some matching; Worker := Some worker |} ∧
    (Port frontend = Some (default 7233 (service_field cluster Frontend Port)) ∧
     MembershipPort frontend =
       Some (default 6933 (service_field cluster Frontend MembershipPort)) ∧
     HTTPPort frontend = service_field cluster Frontend HTTPPort) ∧
    (Port history = Some (default 7234 (service_field cluster History Port)) ∧
     MembershipPort history =
       Some (default 6934 (service_field cluster History MembershipPort))) ∧
    (Port matching = Some (default 7235 (service_field cluster Matching Port)) ∧
     MembershipPort matching =
       Some (default 6935 (service_field cluster Matching MembershipPort))) ∧
    (Port worker = Some (default 7239 (service_field cluster Worker Port)) ∧
     MembershipPort worker =
       Some (default 6939 (service_field cluster Worker MembershipPort))).
Proof.
  destruct cluster as [name namespace labels annotations spec conditions].
  destruct spec as [version image services datastores persistence ui tools mtls].
  unfold reconcileDefaults, service_field. cbn [fst Spec Services].
  eexists _, _, _, _. split; [reflexivity|].
  cbn [Port MembershipPort HTTPPort].
  destruct services as [[frontend history matching worker]|]; cbn; [|done].
  split_and!;
    first [ by destruct frontend as [[? [?|] [?|] ?]|]
          | by destruct history as [[? [?|] [?|] ?]|]
          | by destruct matching as [[? [?|] [?|] ?]|]
          | by destruct worker as [[? [?|] [?|] ?]|] ].
Qed.

(** X18: [FrontendServiceBuilder.Update] panics exactly when the frontend's
    primary port cannot be reached through the pointers of the cluster spec;
    when it returns, the spec of the service (type, selector and ports) does
    not depend on the service handed in, its type is ClusterIP and every
    port is a TCP port. *)
Theorem FrontendServiceBuilder_Update_overwrites `{!Helpers}
    (b : FrontendServiceBuilder.builder) (object object' : Service) :
  (FrontendServiceBuilder.Update b object = None ↔
   service_field (FrontendServiceBuilder.instance b) Frontend Port = None) ∧
  (∀ service err service' err',
     FrontendServiceBuilder.Update b object = Some (service, err) →
     FrontendServiceBuilder.Update b object' = Some (service', err') →
     service_Spec service = service_Spec service' ∧
     service_Type (service_Spec service) = ServiceTypeClusterIP ∧
     Forall (λ port, port_Protocol port = ProtocolTCP)
       (service_Ports (service_Spec service))).
Proof.
  unfold FrontendServiceBuilder.Update, service_field.
  destruct (Services (Spec (FrontendServiceBuilder.instance b)))
    as [[[[replicas [port|] membership http]|] history matching worker]|];
    cbn [mbind option_bind Frontend Port HTTPPort]; try by split.
  do 2 destruct (SetControllerReference _ _) as [? ?].
  split; [done|]. intros service err service' err' [= <- <-] [= <- <-].
  cbn [service_Spec service_Type service_Ports]. split_and!; [done..|].
  destruct http; repeat constructor.
Qed.

(** X19: on a cluster that went through [reconcileDefaults],
    [FrontendServiceBuilder.Update] does not panic, and the port numbers of
    the service are the frontend's declared primary port, or 7233 when none
    was declared, followed by the declared HTTP port when there is one. *)
Theorem FrontendServiceBuilder_Update_after_defaults `{!Helpers}
    (cluster : TemporalCluster) (object : Service) :
  ∃ service err,
    FrontendServiceBuilder.Update
      {| FrontendServiceBuilder.instance := (reconcileDefaults cluster).1 |} object =
      Some (service, err) ∧
    port_Port <$> service_Ports (service_Spec service) =
      default 7233 (service_field cluster Frontend Port)
      :: match service_field cluster Frontend HTTPPort with
         | Some httpPort => [httpPort]
         | None => []
         end.
Proof.
  destruct (reconcileDefaults_Services cluster)
    as (frontend & history & matching & worker & Hservices & (Hport & _ & Hhttp) & _).
  unfold FrontendServiceBuilder.Update. cbn [FrontendServiceBuilder.instance].
  rewrite Hservices. cbn [mbind option_bind Frontend]. rewrite Hport.
  cbn [mbind option_bind].
  destruct (SetControllerReference _ _) as [meta err].
  eexists _, _. split; [reflexivity|]. cbn [service_Ports service_Spec].
  rewrite Hhttp. by destruct (service_field cluster Frontend HTTPPort).
Qed.

(** X20: [FrontendServiceBuilder.Update] applied to what [Build] returns
    hands to [SetControllerReference] the metadata as built: merging the
    builder's labels and annotations into themselves adds nothing. *)
Theorem FrontendServiceBuilder_Update_after_Build `{!Helpers}
    (b : FrontendServiceBuilder.builder) service err :
  FrontendServiceBuilder.Update b (FrontendServiceBuilder.Build b) = Some (service, err) →
  service_Meta service =
    (SetControllerReference (FrontendServiceBuilder.instance b)
       (service_Meta (FrontendServiceBuilder.Build b))).1.
Proof.
  unfold FrontendServiceBuilder.Update, FrontendServiceBuilder.Build.
  cbn [service_Meta meta_Labels meta_Annotations meta_Name meta_Namespace
       meta_OwnerReferences].
  rewrite !Merge_idem.
  destruct (Services (Spec (FrontendServiceBuilder.instance b)))
    as [[[[replicas [port|] membership http]|] history matching worker]|];
    cbn [mbind option_bind Frontend Port HTTPPort]; try done.
  destruct (SetControllerReference _ _) as [meta reference_err].
  by intros [= <- <-].
Qed.

Lemma FrontendServiceBuilder_Update_after_Build_witness :
  ∃ service err,
    @FrontendServiceBuilder.Update sample_helpers
      {| FrontendServiceBuilder.instance := frontend_cluster None |}
      (@FrontendServiceBuilder.Build sample_helpers
         {| FrontendServiceBuilder.instance := frontend_cluster None |}) =
      Some (service, err) ∧
    service_Meta service =
      (@SetControllerReference sample_helpers (frontend_cluster None)
         (service_Meta
            (@FrontendServiceBuilder.Build sample_helpers
               {| FrontendServiceBuilder.instance := frontend_cluster None |}))).1.
Proof.
  destruct (@FrontendServiceBuilder.Update sample_helpers
              {| FrontendServiceBuilder.instance := frontend_cluster None |}
              (@FrontendServiceBuilder.Build sample_helpers
                 {| FrontendServiceBuilder.instance := frontend_cluster None |}))
    as [[service err]|] eqn:Hrun; [|by vm_compute in Hrun].
  exists service, err. split; [done|].
  exact (@FrontendServiceBuilder_Update_after_Build sample_helpers
           {| FrontendServiceBuilder.instance := frontend_cluster None |} service err Hrun).
Defined.

(** X21: [HeadlessServiceBuilder.Update] panics exactly when the service
    spec, its port or its membership port is nil; otherwise the service it
    leaves has the metrics port 9090, the rpc port and the membership port,
    in this order and all TCP, is of type ClusterIP with the cluster IP
    None, and publishes the addresses that are not ready. *)
Theorem HeadlessServiceBuilder_Update_shape `{!Helpers} `{!HeadlessHelpers}
    (b : HeadlessServiceBuilder.builder) (object : HeadlessService) :
  match HeadlessServiceBuilder.service b ≫= Port,
        HeadlessServiceBuilder.service b ≫= MembershipPort with
  | Some port, Some membershipPort =>
    ∃ service err,
      HeadlessServiceBuilder.Update b object = Some (service, err) ∧
      service_Ports (service_Spec (headless_Service service)) =
        [ {| port_Name := "http-metrics"; port_Protocol := ProtocolTCP;
             port_Port := 9090; port_TargetPort := MetricsPortName |};
          {| port_Name := "tcp-rpc"; port_Protocol := ProtocolTCP;
             port_Port := port; port_TargetPort := FromString "rpc" |};
          {| port_Name := "tcp-membership"; port_Protocol := ProtocolTCP;
             port_Port := membershipPort; port_TargetPort := FromString "membership" |} ] ∧
      service_Type (service_Spec (headless_Service service)) = ServiceTypeClusterIP ∧
      headless_ClusterIP service = ClusterIPNone ∧
      headless_PublishNotReadyAddresses service = true
  | _, _ => HeadlessServiceBuilder.Update b object = None
  end.
Proof.
  unfold HeadlessServiceBuilder.Update.
  destruct (HeadlessServiceBuilder.service b) as [[replicas [port|] [membership|] http]|];
    cbn [mbind option_bind Port MembershipPort]; try done.
  destruct (SetControllerReference _ _) as [meta [reference_err|]];
    eexists _, _; (split; [reflexivity|]); by cbn.
Qed.

(** X22: on a cluster that went through [reconcileDefaults],
    [HeadlessServiceBuilder.Update] does not panic for any of the four
    services, and the port numbers are 9090, the service's declared port and
    its declared membership port, each replaced by the service's default
    when it was not declared. *)
Theorem HeadlessServiceBuilder_Update_after_defaults `{!Helpers} `{!HeadlessHelpers}
    (serviceName : string) (cluster : TemporalCluster) (object : HeadlessService) :
  Forall
    (λ '(pick, port, membershipPort),
       ∃ service err,
         HeadlessServiceBuilder.Update
           {| HeadlessServiceBuilder.serviceName := serviceName;
              HeadlessServiceBuilder.instance := (reconcileDefaults cluster).1;
              HeadlessServiceBuilder.service :=
                Services (Spec (reconcileDefaults cluster).1) ≫= pick |} object =
           Some (service, err) ∧
         port_Port <$> service_Ports (service_Spec (headless_Service service)) =
           [ 9090;
             default port (service_field cluster pick Port);
             default membershipPort (service_field cluster pick MembershipPort) ])
    [ (Frontend, 7233, 6933); (History, 7234, 6934);
      (Matching, 7235, 6935); (Worker, 7239, 6939) ].
Proof.
  destruct (reconcileDefaults_Services cluster)
    as (frontend & history & matching & worker & Hservices
        & (Hfp & Hfm & _) & (Hhp & Hhm) & (Hmp & Hmm) & (Hwp & Hwm)).
  rewrite Hservices. cbn [mbind option_bind Frontend History Matching Worker].
  unfold HeadlessServiceBuilder.Update.
  cbn [HeadlessServiceBuilder.service HeadlessServiceBuilder.instance
       HeadlessServiceBuilder.serviceName mbind option_bind].
  rewrite !Forall_cons, Forall_nil. split_and!; [| | | |done].
  - cbn [mbind option_bind Frontend History Matching Worker].
    rewrite Hfp. cbn [mbind option_bind]. rewrite Hfm. cbn [mbind option_bind].
    destruct (SetControllerReference _ _) as [meta err]. by eexists _, _.
  - cbn [mbind option_bind Frontend History Matching Worker].
    rewrite Hhp. cbn [mbind option_bind]. rewrite Hhm. cbn [mbind option_bind].
    destruct (SetControllerReference _ _) as [meta err]. by eexists _, _.
  - cbn [mbind option_bind Frontend History Matching Worker].
    rewrite Hmp. cbn [mbind option_bind]. rewrite Hmm. cbn [mbind option_bind].
    destruct (SetControllerReference _ _) as [meta err]. by eexists _, _.
  - cbn [mbind option_bind Frontend History Matching Worker].
    rewrite Hwp. cbn [mbind option_bind]. rewrite Hwm. cbn [mbind option_bind].
    destruct (SetControllerReference _ _) as [meta err]. by eexists _, _.
Qed.

(** X23: [HeadlessServiceBuilder.Update] applied to what [Build] returns
    hands to [SetControllerReference] the metadata as built, the headless
    labels included. *)
Theorem HeadlessServiceBuilder_Update_after_Build `{!Helpers} `{!HeadlessHelpers}
    (b : HeadlessServiceBuilder.builder) service err :
  HeadlessServiceBuilder.Update b (HeadlessServiceBuilder.Build b) = Some (service, err) →
  service_Meta (headless_Service service) =
    (SetControllerReference (HeadlessServiceBuilder.instance b)
       (service_Meta (headless_Service (HeadlessServiceBuilder.Build b)))).1.
Proof.
  unfold HeadlessServiceBuilder.Update, HeadlessServiceBuilder.Build.
  cbn [headless_Service service_Meta meta_Labels meta_Annotations meta_Name
       meta_Namespace meta_OwnerReferences].
  rewrite Merge_absorb, Merge_idem.
  destruct (HeadlessServiceBuilder.service b) as [[replicas [port|] [membership|] http]|];
    cbn [mbind option_bind Port MembershipPort]; try done.
  destruct (SetControllerReference _ _) as [meta reference_err].
  by intros [= <- <-].
Qed.

Lemma HeadlessServiceBuilder_Update_after_Build_witness :
  ∃ service err,
    @HeadlessServiceBuilder.Update sample_helpers sample_headless_helpers
      {| HeadlessServiceBuilder.serviceName := "history";
         HeadlessServiceBuilder.instance := (reconcileDefaults blank_cluster).1;
         HeadlessServiceBuilder.service :=
           Services (Spec (reconcileDefaults blank_cluster).1) ≫= History |}
      (@HeadlessServiceBuilder.Build sample_helpers sample_headless_helpers
         {| HeadlessServiceBuilder.serviceName := "history";
            HeadlessServiceBuilder.instance := (reconcileDefaults blank_cluster).1;
            HeadlessServiceBuilder.service :=
              Services (Spec (reconcileDefaults blank_cluster).1) ≫= History |}) =
      Some (service, err) ∧
    service_Meta (headless_Service service) =
      (@SetControllerReference sample_helpers (reconcileDefaults blank_cluster).1
         (service_Meta
            (headless_Service
               (@HeadlessServiceBuilder.Build sample_helpers sample_headless_helpers
                  {| HeadlessServiceBuilder.serviceName := "history";
                     HeadlessServiceBuilder.instance := (reconcileDefaults blank_cluster).1;
                     HeadlessServiceBuilder.service :=
                       Services (Spec (reconcileDefaults blank_cluster).1) ≫= History
                  |})))).1.
Proof.
  destruct (@HeadlessServiceBuilder.Update sample_helpers sample_headless_helpers
              {| HeadlessServiceBuilder.serviceName := "history";
                 HeadlessServiceBuilder.instance := (reconcileDefaults blank_cluster).1;
                 HeadlessServiceBuilder.service :=
                   Services (Spec (reconcileDefaults blank_cluster).1) ≫= History |}
              (@HeadlessServiceBuilder.Build sample_helpers sample_headless_helpers
                 {| HeadlessServiceBuilder.serviceName := "history";
                    HeadlessServiceBuilder.instance := (reconcileDefaults blank_cluster).1;
                    HeadlessServiceBuilder.service :=
                      Services (Spec (reconcileDefaults blank_cluster).1) ≫= History |}))
    as [[service err]|] eqn:Hrun; [|by vm_compute in Hrun].
  exists service, err. split; [done|].
  exact (@HeadlessServiceBuilder_Update_after_Build sample_helpers sample_headless_helpers
           _ service err Hrun).
Defined.
